(** * MeteoriteDashboard: the catalog reconciliation scripts

    A shallow embedding of the identifier backfill ([fetch_ids.py],
    [finish_fetching_ids.py], [fill_remaining_ids.py],
    [fix_names_and_ids.py]), of the paginated crawl loops that feed it,
    and of the survivorship merge ([update_data.py],
    [clean_final_data.py]).

    Conventions.
    - A Python [str] is a [string]; [strip] and [lower] act on the ASCII
      range (bytes above 127 are neither whitespace nor cased).
    - A pandas cell that may be missing is an [option]: [None] is NaN.
      Finite floating-point cells are rationals ([Q]).
    - A Python [dict] is an association list in insertion order with
      pairwise distinct keys: iteration order is observable in the dict
      comprehension that derives the lowercase map.
    - The HTTP response of a page is an input: the crawl functions take
      the function from page index to what the request and the two
      [re.findall] calls produce.
    - What a run depends on besides the frame and the pages (the dtype
      pandas gives the [id] column, the pandas version, a save that
      fails) is a [Platform]; the properties hold on every platform
      unless they name one. *)

From Stdlib Require Import ZArith QArith List String Ascii Bool Lia.
From Stdlib Require Import Permutation Sorted OrderedTypeEx.
Import ListNotations.

Local Open Scope string_scope.
Local Open Scope Z_scope.

(** ** Python strings *)

Module PyStr.

(** Whitespace of [str.strip()] in the ASCII range: TAB..CR, FS..US, SPACE. *)
Definition is_space (c : ascii) : bool :=
  let n := N_of_ascii c in
  ((9 <=? n) && (n <=? 13) || (28 <=? n) && (n <=? 32))%N.

Definition lower_char (c : ascii) : ascii :=
  let n := N_of_ascii c in
  if ((65 <=? n) && (n <=? 90))%N then ascii_of_N (n + 32) else c.

(** [s.lower()] *)
Fixpoint lower (s : string) : string :=
  match s with
  | EmptyString => EmptyString
  | String c t => String (lower_char c) (lower t)
  end.

Fixpoint lstrip (s : string) : string :=
  match s with
  | EmptyString => EmptyString
  | String c t => if is_space c then lstrip t else s
  end.

Fixpoint rstrip (s : string) : string :=
  match s with
  | EmptyString => EmptyString
  | String c t =>
      match rstrip t with
      | EmptyString => if is_space c then EmptyString else String c EmptyString
      | t' => String c t'
      end
  end.

(** [s.strip()] *)
Definition strip (s : string) : string := rstrip (lstrip s).

(** [prefix p s]: does [s] start with [p]? *)
Fixpoint startswith (p s : string) : bool :=
  match p, s with
  | EmptyString, _ => true
  | String a p', String b s' => Ascii.eqb a b && startswith p' s'
  | String _ _, EmptyString => false
  end.

(** [s.replace('&nbsp;', ' ')]: the occurrences are replaced from left to
    right without overlap; [skip] counts the characters of an occurrence
    still to be dropped. *)
Fixpoint replace_nbsp_from (skip : nat) (s : string) : string :=
  match s with
  | EmptyString => EmptyString
  | String c t =>
      match skip with
      | S k => replace_nbsp_from k t
      | O =>
          if startswith "&nbsp;" s
          then String " " (replace_nbsp_from 5 t)
          else String c (replace_nbsp_from 0 t)
      end
  end.

Definition replace_nbsp (s : string) : string := replace_nbsp_from 0 s.

(** Position of the first [>] of [s], if any. *)
Fixpoint find_gt (s : string) : option nat :=
  match s with
  | EmptyString => None
  | String c t =>
      if Ascii.eqb c ">" then Some O
      else match find_gt t with Some n => Some (S n) | None => None end
  end.

(** [re.sub(r'<[^>]+>', '', s)]: at a [<] the pattern matches when the
    next [>] exists and is at least one character away; the match then
    runs up to that [>]. Matches are taken from left to right. *)
Fixpoint remove_tags_from (skip : nat) (s : string) : string :=
  match s with
  | EmptyString => EmptyString
  | String c t =>
      match skip with
      | S k => remove_tags_from k t
      | O =>
          if Ascii.eqb c "<" then
            match find_gt t with
            | Some (S n) => remove_tags_from (S (S n)) t
            | _ => String c (remove_tags_from 0 t)
            end
          else String c (remove_tags_from 0 t)
      end
  end.

Definition remove_tags (s : string) : string := remove_tags_from 0 s.

(** [s.replace('*', '')] *)
Fixpoint remove_asterisks (s : string) : string :=
  match s with
  | EmptyString => EmptyString
  | String c t =>
      if Ascii.eqb c "*" then remove_asterisks t
      else String c (remove_asterisks t)
  end.

(** [re.search(r'\*', s)] finds something. *)
Fixpoint has_asterisk (s : string) : bool :=
  match s with
  | EmptyString => false
  | String c t => Ascii.eqb c "*" || has_asterisk t
  end.

(** [str(x)] of a name cell: a missing name prints as [nan]. *)
Definition str (c : option string) : string :=
  match c with
  | Some s => s
  | None => "nan"
  end.

(** [p in s]: [p] occurs in [s]. *)
Fixpoint contains (p s : string) : bool :=
  startswith p s ||
  match s with
  | EmptyString => false
  | String _ t => contains p t
  end.

End PyStr.

(** ** Python dicts, in insertion order *)

Module PyDict.

Definition dict := list (string * Z).

(** [d[k]] guarded by [k in d] *)
Fixpoint get (d : dict) (k : string) : option Z :=
  match d with
  | [] => None
  | (k', v') :: d' => if String.eqb k k' then Some v' else get d' k
  end.

(** [d[k] = v]: an existing key keeps its place, a new key goes last. *)
Fixpoint set (d : dict) (k : string) (v : Z) : dict :=
  match d with
  | [] => [(k, v)]
  | (k', v') :: d' =>
      if String.eqb k k' then (k', v) :: d' else (k', v') :: set d' k v
  end.

Definition keys (d : dict) : list string := map fst d.

End PyDict.

Import PyStr PyDict.

(** ** The dataset *)

(** One row of [Meteorite_Landings_Ready.csv] / [_Final.csv]: the columns
    kept by [clean_and_finalize]. *)
Record row := mkRow {
  name : option string;
  id : option Z;
  recclass : option string;
  mass_g : option Q;
  fall : option string;
  year : option Q;
  reclat : option Q;
  reclong : option Q;
  year_int : option Z;
  mass_log : option Q;
  category_broad : option string
}.

Definition DataFrame := list row.

(** [pd.notna(x)] *)
Definition notna {A : Type} (c : option A) : bool :=
  match c with
  | Some _ => true
  | None => false
  end.

(** [x != 0] on an id cell; NaN differs from 0. *)
Definition ne0 (c : option Z) : bool :=
  match c with
  | Some v => negb (v =? 0)
  | None => true
  end.

(** [(df['id'] == 0) | (df['id'].isna())] *)
Definition missing (r : row) : bool :=
  match id r with
  | Some v => v =? 0
  | None => true
  end.

Definition missing_count (df : DataFrame) : nat :=
  List.length (filter missing df).

(** ** The platform of a run *)

(** The scripts pin neither a dtype for the [id] column nor a pandas
    version, and they write the file in the middle of a crawl.
    - [wide_id v] is what the [id] column holds once a Python int [v]
      beyond 2^53 is assigned to it. The series that
      [df.apply(fill_id, axis=1)] returns takes the dtype pandas infers
      from its values: with ints only it is an integer series and holds
      [v] itself; as soon as one kept id comes back as a float (the
      column was read as float64: an id cell was empty or written with
      a decimal point) it is float64 and holds the double nearest to
      [v].
    - [to_csv_raises page] tells whether [df.to_csv] raises in the
      intermediate save of [page], inside the [try] of the loop body.
    - [nan_as_text] tells whether [astype(str)] turns a missing name into
      the text [nan] (pandas 2, object dtype) or leaves it missing
      (pandas 3, str dtype). *)
Class Platform := {
  wide_id : Z -> Z;
  to_csv_raises : nat -> bool;
  nan_as_text : bool
}.

(** A Python int as the [id] column holds it. Every dtype the column may
    have (int64, float64, object) holds an int of magnitude up to 2^53 as
    it is. *)
Definition as_id `{Pf : Platform} (v : Z) : Z :=
  if Z.abs v <=? 2 ^ 53 then v else wide_id v.

(** [int(float(v))]: the double nearest to [v], ties going to the even
    mantissa (53 bits); [v] is below the range where a double
    overflows. *)
Definition float64_of_int (v : Z) : Z :=
  let a := Z.abs v in
  let e := Z.log2 a - 52 in
  if e <=? 0 then v
  else
    let ulp := 2 ^ e in
    let q := a / ulp in
    let q' :=
      match 2 * (a mod ulp) ?= ulp with
      | Lt => q
      | Gt => q + 1
      | Eq => if Z.even q then q else q + 1
      end in
    Z.sgn v * (q' * ulp).

(** pandas 2 on a file whose [id] column is read as float64, every save
    going through. *)
Definition pandas2 : Platform :=
  {| wide_id := float64_of_int;
     to_csv_raises := fun _ => false;
     nan_as_text := true |}.

(** pandas 3 on the same file. *)
Definition pandas3 : Platform :=
  {| wide_id := float64_of_int;
     to_csv_raises := fun _ => false;
     nan_as_text := false |}.

(** An [id] column of ints, and a disk that is full when page 10 is
    saved. *)
Definition full_disk : Platform :=
  {| wide_id := fun v => v;
     to_csv_raises := fun page => Nat.eqb page 10;
     nan_as_text := true |}.

(** The closed examples below run on [pandas2] unless they name another
    platform. *)
#[export] Existing Instance pandas2.

(** ** The lookup index *)

(** [re.sub(r'<[^>]+>', '', name_html).replace('&nbsp;', ' ').strip()] *)
Definition clean_name (name_html : string) : string :=
  strip (replace_nbsp (remove_tags name_html)).

(** The inner loop over the matches of one page:
    [for code, name_html in matches: name_id_map[clean_name] = int(code)]. *)
Definition index_matches (name_id_map : dict) (matches : list (Z * string)) : dict :=
  fold_left (fun m cn => set m (clean_name (snd cn)) (fst cn)) matches name_id_map.

(** [{k.lower(): v for k, v in name_id_map.items()}] *)
Definition name_id_map_lower (name_id_map : dict) : dict :=
  fold_left (fun m kv => set m (lower (fst kv)) (snd kv)) name_id_map [].

(** ** The identifier backfill *)

Definition fill_id (name_id_map name_id_map_lower : dict) (r : row) : option Z :=
  if notna (id r) && ne0 (id r) then id r
  else
    let name := strip (str (name r)) in
    match get name_id_map name with
    | Some v => Some v
    | None =>
        match get name_id_map_lower (lower name) with
        | Some v => Some v
        | None => Some 0
        end
    end.

(** [df.apply(f, axis=1)]: one result per row, in row order. *)
Definition df_apply (f : row -> option Z) (df : DataFrame) : list (option Z) :=
  map f df.

Definition set_id (r : row) (v : option Z) : row :=
  {| name := name r; id := v; recclass := recclass r; mass_g := mass_g r;
     fall := fall r; year := year r; reclat := reclat r;
     reclong := reclong r; year_int := year_int r; mass_log := mass_log r;
     category_broad := category_broad r |}.

(** [df['id'] = series] for the series of a [df.apply(fill_id, axis=1)]:
    the series is aligned with the rows by position and its values are
    held in the dtype pandas infers for it. For a row that has its id,
    [fill_id] returned the scalar of the column, which the column holds
    as it is; for a row that was missing its id, it returned a Python
    int (an id of the index, or 0), which is held as [as_id] gives it. *)
Definition assign_id `{Pf : Platform} (df : DataFrame) (series : list (option Z))
  : DataFrame :=
  map (fun rv =>
         set_id (fst rv)
           (if missing (fst rv) then option_map as_id (snd rv) else snd rv))
    (combine df series).

(** The apply step shared by the four scripts:
    [df['id'] = df.apply(fill_id, axis=1)] with the lowercase map derived
    from the exact one just before. The scripts reach it with a frame
    that has a row missing its id. *)
Definition apply_ids `{Pf : Platform} (name_id_map : dict) (df : DataFrame)
  : DataFrame :=
  let lower_map := name_id_map_lower name_id_map in
  assign_id df (df_apply (fill_id name_id_map lower_map) df).

(** [_apply_and_save(df, name_id_map, filename)] when [to_csv] returns:
    the frame is updated in place and written out; the result is the
    frame and the file. *)
Definition _apply_and_save `{Pf : Platform} (df : DataFrame) (name_id_map : dict)
  : DataFrame * DataFrame :=
  let df' := apply_ids name_id_map df in (df', df').

Definition set_name (r : row) (n : option string) : row :=
  {| name := n; id := id r; recclass := recclass r; mass_g := mass_g r;
     fall := fall r; year := year r; reclat := reclat r;
     reclong := reclong r; year_int := year_int r; mass_log := mass_log r;
     category_broad := category_broad r |}.

(** [df['name'].astype(str)] on one cell: a name stays the text it is; a
    missing name becomes the text [nan] or stays missing, by the pandas
    version. *)
Definition astype_str `{Pf : Platform} (c : option string) : option string :=
  match c with
  | Some s => Some s
  | None => if nan_as_text then Some "nan" else None
  end.

(** [.str.contains(r'\*')] on one cell, as [.sum()] counts it: a missing
    cell counts for nothing. *)
Definition str_contains_asterisk (c : option string) : bool :=
  match c with
  | Some s => has_asterisk s
  | None => false
  end.

(** [.str.replace('*', '', regex=False).str.strip()] on one cell: a
    missing cell stays missing. *)
Definition str_replace_strip (c : option string) : option string :=
  option_map (fun s => strip (remove_asterisks s)) c.

(** Step 1 of [fix_names_and_fetch_ids]: when some name contains an
    asterisk, every name becomes
    [astype(str).str.replace('*', '', regex=False).str.strip()] of
    itself. *)
Definition clean_names `{Pf : Platform} (df : DataFrame) : DataFrame :=
  let dirty_count :=
    List.length
      (filter (fun r => str_contains_asterisk (astype_str (name r))) df) in
  if Nat.ltb 0 dirty_count
  then map (fun r => set_name r (str_replace_strip (astype_str (name r)))) df
  else df.

(** ** The crawl loops of the identifier scripts *)

Module Crawl.

(** What the request of one page produces: [requests.get] raises, or the
    body gives the matches of [code=(\d+)[^>]*>(.*?)</a>] (the code read
    by [int]) and the matches of [<td>(\d{4})</td>] (read by [int]).
    A code is a run of digits and [int] reads every run of up to 4300
    digits, the default limit of an interpreter that has one; the pages
    taken here have no longer code, so that [int(code)] returns. *)
Inductive response :=
| Raises
| Body (matches : list (Z * string)) (years_on_page : list Z).

(** What a session does that can be observed from outside. *)
Inductive event :=
| Request (page : nat)
| NoLinks (page : nat)
| Indexed (page : nat) (new_found : nat)
| Oldest (min_year : Z)
| YearCheckSkipped
| StopScan (min_year : Z)
| Error (page : nat)
| Save
| FileNotFound
| NothingMissing.

Record state := mkState {
  index : dict;              (* name_id_map *)
  frame : DataFrame;         (* df *)
  file : option DataFrame;   (* what the last to_csv that returned wrote *)
  log : list event
}.

Definition emit (e : event) (st : state) : state :=
  {| index := index st; frame := frame st; file := file st;
     log := log st ++ [e] |}.

Definition add_matches (matches : list (Z * string)) (st : state) : state :=
  {| index := index_matches (index st) matches; frame := frame st;
     file := file st; log := log st |}.

(** A call of [_apply_and_save(df, name_id_map, input_file)] that
    returns. The call after the loop is outside every [try]: a run in
    which it raises ends there with a traceback, and the states below
    are those of the runs that get through it. *)
Definition checkpoint `{Pf : Platform} (st : state) : state :=
  let (df', written) := _apply_and_save (frame st) (index st) in
  {| index := index st; frame := df'; file := Some written;
     log := log st ++ [Save] |}.

(** [_apply_and_save] inside the [try] of the loop body of [page]. When
    [to_csv] raises, the ids are already assigned in the frame, no file
    is recorded as written, and the [except] branch prints the error of
    the page; the loop goes on. *)
Definition try_apply_and_save `{Pf : Platform} (page : nat) (st : state) : state :=
  if to_csv_raises page
  then emit (Error page)
         {| index := index st; frame := apply_ids (index st) (frame st);
            file := file st; log := log st |}
  else checkpoint st.

(** [df.to_csv(input_file)] without an apply. *)
Definition save (st : state) : state :=
  {| index := index st; frame := frame st; file := Some (frame st);
     log := log st ++ [Save] |}.

Definition start (df : DataFrame) : state :=
  {| index := []; frame := df; file := None; log := [] |}.

(** The page indices requested so far, in order. *)
Fixpoint requested (l : list event) : list nat :=
  match l with
  | [] => []
  | Request p :: l' => p :: requested l'
  | _ :: l' => requested l'
  end.

Inductive flow := Continue | Break.

(** [for page in range(...)] with [break]. *)
Fixpoint for_range (body : nat -> state -> state * flow)
  (pages : list nat) (st : state) : state :=
  match pages with
  | [] => st
  | page :: rest =>
      match body page st with
      | (st', Break) => st'
      | (st', Continue) => for_range body rest st'
      end
  end.

(** [min([int(y) for y in years_on_page])] of a non-empty list. *)
Definition min_of (y : Z) (ys : list Z) : Z := fold_left Z.min ys y.

Section Scripts.

Context `{Pf : Platform}.
Variable fetch : nat -> response.

(** *** fetch_ids.py *)

Definition fill_missing_page (page : nat) (st : state) : state * flow :=
  let st := emit (Request page) st in
  match fetch page with
  | Raises => (emit (Error page) st, Break)
  | Body matches _ =>
      match matches with
      | [] => (emit (NoLinks page) st, Continue)
      | _ :: _ =>
          (emit (Indexed page (List.length matches)) (add_matches matches st),
           Continue)
      end
  end.

(** [for page in range(0, 25)] *)
Definition fill_missing_loop (st : state) : state :=
  for_range fill_missing_page (seq 0 25) st.

Definition fill_missing_ids (input : option DataFrame) : state :=
  match input with
  | None => emit FileNotFound (start [])
  | Some df =>
      if Nat.eqb (missing_count df) 0 then emit NothingMissing (start df)
      else checkpoint (fill_missing_loop (start df))
  end.

(** *** finish_fetching_ids.py *)

Definition finish_filling_page (page : nat) (st : state) : state * flow :=
  let st := emit (Request page) st in
  match fetch page with
  | Raises => (emit (Error page) st, Continue)
  | Body matches years_on_page =>
      let intermediate_save st :=
        if Nat.eqb (page mod 10) 0 && Nat.ltb 0 page
        then try_apply_and_save page st else st in
      match matches with
      | [] => (intermediate_save (emit (NoLinks page) st), Continue)
      | _ :: _ =>
          let st := emit (Indexed page (List.length matches))
                      (add_matches matches st) in
          match years_on_page with
          | y :: ys =>
              let min_year := min_of y ys in
              let st := emit (Oldest min_year) st in
              if min_year <? 2012 then (emit (StopScan min_year) st, Break)
              else (intermediate_save st, Continue)
          | [] => (intermediate_save (emit YearCheckSkipped st), Continue)
          end
      end
  end.

(** [for page in range(0, 101)] *)
Definition finish_filling_loop (st : state) : state :=
  for_range finish_filling_page (seq 0 101) st.

Definition finish_filling_ids (input : option DataFrame) : state :=
  match input with
  | None => emit FileNotFound (start [])
  | Some df =>
      if Nat.eqb (missing_count df) 0 then emit NothingMissing (start df)
      else checkpoint (finish_filling_loop (start df))
  end.

(** *** fill_remaining_ids.py *)

Definition fill_remaining_page (page : nat) (st : state) : state * flow :=
  let st := emit (Request page) st in
  match fetch page with
  | Raises => (emit (Error page) st, Continue)
  | Body matches years_on_page =>
      let intermediate_save st :=
        if Nat.eqb (page mod 10) 0 then try_apply_and_save page st else st in
      match matches with
      | [] => (intermediate_save (emit (NoLinks page) st), Continue)
      | _ :: _ =>
          let st := emit (Indexed page (List.length matches))
                      (add_matches matches st) in
          match years_on_page with
          | y :: ys =>
              (intermediate_save (emit (Oldest (min_of y ys)) st), Continue)
          | [] => (intermediate_save st, Continue)
          end
      end
  end.

(** [for page in range(100, 181)] *)
Definition fill_remaining_loop (st : state) : state :=
  for_range fill_remaining_page (seq 100 81) st.

Definition fill_remaining_ids (input : option DataFrame) : state :=
  match input with
  | None => emit FileNotFound (start [])
  | Some df =>
      if Nat.eqb (missing_count df) 0 then emit NothingMissing (start df)
      else checkpoint (fill_remaining_loop (start df))
  end.

(** *** fix_names_and_ids.py *)

Definition fix_names_page (page : nat) (st : state) : state * flow :=
  let st := emit (Request page) st in
  match fetch page with
  | Raises => (emit (Error page) st, Continue)
  | Body matches _ =>
      match matches with
      | _ :: _ =>
          (emit (Indexed page (List.length matches)) (add_matches matches st),
           Continue)
      | [] => (emit (NoLinks page) st, Continue)
      end
  end.

(** [for page in range(0, 61)] *)
Definition fix_names_loop (st : state) : state :=
  for_range fix_names_page (seq 0 61) st.

Definition fix_names_and_fetch_ids (input : option DataFrame) : state :=
  match input with
  | None => emit FileNotFound (start [])
  | Some df =>
      let st := save (start (clean_names df)) in
      if Nat.eqb (missing_count (frame st)) 0 then emit NothingMissing st
      else checkpoint (fix_names_loop st)
  end.

End Scripts.

End Crawl.

(** ** update_data.py: the table scrape and the merge *)

Module Update.

(** [pd.to_numeric(..., errors='coerce').fillna(0)] on one cell *)
Definition fillna0 (c : option Q) : Q :=
  match c with
  | Some q => q
  | None => 0%Q
  end.

Definition Qlt_bool (a b : Q) : bool := negb (Qle_bool b a).

Definition qmin (a b : Q) : Q := if Qle_bool a b then a else b.
Definition qmax (a b : Q) : Q := if Qle_bool a b then b else a.

(** [Series.min()] / [Series.max()]: NaN on an empty column. *)
Definition col_min (l : list Q) : option Q :=
  match l with
  | [] => None
  | x :: t => Some (fold_left qmin t x)
  end.

Definition col_max (l : list Q) : option Q :=
  match l with
  | [] => None
  | x :: t => Some (fold_left qmax t x)
  end.

(** [int(x)]: truncates; raises [ValueError] on NaN. *)
Definition py_int (x : option Q) : option Z :=
  match x with
  | Some q => Some (Z.quot (Qnum q) (Z.pos (Qden q)))
  | None => None
  end.

Inductive event :=
| Request (page : nat)
| NoTableFound
| YearMissing
| Got (count : nat) (min_year max_year : Z)
| Reached (max_year : Z)
| Error (page : nat).

Fixpoint requested (l : list event) : list nat :=
  match l with
  | [] => []
  | Request p :: l' => p :: requested l'
  | _ :: l' => requested l'
  end.

Definition target_stop_year : Q := 2012%Q.

Section Scrape.

(** A chunk is the table of one page after the column renaming; all the
    loop reads of it is its [year] column, when it has one. *)
Variable chunk : Type.
Variable year_column : chunk -> option (list (option Q)).

(** What the request of one page produces: [requests.get] raises, or
    [pd.read_html] finds no table and raises [ValueError], or there is a
    table. *)
Inductive scrape :=
| GetRaises
| NoTable
| Table (df_chunk : chunk).

Variable fetch : nat -> scrape.

Record state := mkState {
  all_dfs : list chunk;
  log : list event
}.

Definition emit (e : event) (st : state) : state :=
  {| all_dfs := all_dfs st; log := log st ++ [e] |}.

Definition append (c : chunk) (st : state) : state :=
  {| all_dfs := all_dfs st ++ [c]; log := log st |}.

(** The [while keep_scraping] loop from page [page] on. [None]: the loop
    is still running when the fuel is spent. *)
Fixpoint scrape_from (fuel : nat) (page : nat) (st : state) : option state :=
  match fuel with
  | O => None
  | S fuel' =>
      let st := emit (Request page) st in
      match fetch page with
      | GetRaises => Some (emit (Error page) st)
      | NoTable => Some (emit NoTableFound st)
      | Table df_chunk =>
          match year_column df_chunk with
          | None => scrape_from fuel' (S page) (emit YearMissing st)
          | Some col =>
              let temp_year := map fillna0 col in
              let min_year := col_min temp_year in
              let max_year := col_max temp_year in
              let count := List.length temp_year in
              match py_int min_year, py_int max_year, max_year with
              | Some lo, Some hi, Some max_year =>
                  let st := append df_chunk (emit (Got count lo hi) st) in
                  if Nat.eqb count 0 then Some st
                  else if Qlt_bool max_year target_stop_year
                          && Qlt_bool 0 max_year
                  then Some (emit (Reached hi) st)
                  else scrape_from fuel' (S page) st
              | _, _, _ => Some (emit (Error page) st)
              end
          end
      end
  end.

(** The crawl of [get_latest_meteorites]: the loop from page 0 with
    nothing collected. What follows it in the script is the numeric
    cleaning of the chunks and then the merge below. *)
Definition get_latest_meteorites (fuel : nat) : option state :=
  scrape_from fuel 0 {| all_dfs := []; log := [] |}.

End Scrape.

Arguments GetRaises {chunk}.
Arguments NoTable {chunk}.
Arguments Table {chunk} df_chunk.
Arguments all_dfs {chunk} s.
Arguments log {chunk} s.
Arguments emit {chunk} e st.
Arguments append {chunk} c st.
Arguments scrape_from {chunk} year_column fetch fuel page st.
Arguments get_latest_meteorites {chunk} year_column fetch fuel.

(** *** The merge *)

Definition name_cmp (a b : option string) : comparison :=
  match a, b with
  | Some x, Some y => String.compare x y
  | Some _, None => Lt
  | None, Some _ => Gt
  | None, None => Eq
  end.

Definition lat_cmp (a b : option Q) : comparison :=
  match a, b with
  | Some x, Some y => Qcompare x y
  | Some _, None => Lt
  | None, Some _ => Gt
  | None, None => Eq
  end.

(** The order of [by=['name', 'reclat'], na_position='last']. *)
Definition row_leb (a b : row) : bool :=
  match name_cmp (name a) (name b) with
  | Lt => true
  | Gt => false
  | Eq =>
      match lat_cmp (reclat a) (reclat b) with
      | Gt => false
      | _ => true
      end
  end.

Fixpoint insert (r : row) (l : DataFrame) : DataFrame :=
  match l with
  | [] => [r]
  | x :: t => if row_leb r x then r :: l else x :: insert r t
  end.

(** [df.sort_values(by=['name', 'reclat'], na_position='last')]: the sort
    on several keys is stable, so its result is that of the stable
    insertion sort. *)
Definition sort_values (df : DataFrame) : DataFrame :=
  fold_right insert [] df.

Definition name_eqb (a b : option string) : bool :=
  match a, b with
  | Some x, Some y => String.eqb x y
  | None, None => true
  | _, _ => false
  end.

Fixpoint drop_duplicates_from (seen : list (option string)) (df : DataFrame)
  : DataFrame :=
  match df with
  | [] => []
  | r :: t =>
      if existsb (name_eqb (name r)) seen then drop_duplicates_from seen t
      else r :: drop_duplicates_from (name r :: seen) t
  end.

(** [df.drop_duplicates(subset=['name'], keep='first')]; missing names
    count as equal to each other. *)
Definition drop_duplicates (df : DataFrame) : DataFrame :=
  drop_duplicates_from [] df.

(** The last two steps of [clean_and_finalize]. *)
Definition deduplicate (df : DataFrame) : DataFrame :=
  drop_duplicates (sort_values df).

(** [pd.concat([df_base, df_new], ignore_index=True)], sorted and
    deduplicated: the merge of [get_latest_meteorites]. *)
Definition merge (df_base df_new : DataFrame) : DataFrame :=
  deduplicate (df_base ++ df_new)%list.

(** *** The columns of a scraped table *)

(** [df_chunk.columns.astype(str).str.lower().str.strip()] on one label *)
Definition normalize_column (col : string) : string := strip (lower col).

(** The entry of [col_map] for a normalized label, if it gets one. *)
Definition col_map (col : string) : option string :=
  if contains "name" col && negb (contains "type" col) then Some "name"
  else if contains "class" col || contains "type" col then Some "recclass"
  else if contains "mass" col then Some "mass (g)"
  else if contains "year" col || contains "date" col then Some "year"
  else if contains "fall" col then Some "fall"
  else if contains "co-ord" col || contains "loc" col then Some "GeoLocation"
  else None.

(** [df_chunk.rename(columns=col_map)] on one label *)
Definition rename (col : string) : string :=
  match col_map col with
  | Some target => target
  | None => col
  end.

(** The labels of a chunk after normalization and renaming. *)
Definition renamed_columns (columns : list string) : list string :=
  map rename (map normalize_column columns).

(** ['year' not in df_chunk.columns] is false *)
Definition has_year (columns : list string) : bool :=
  existsb (String.eqb "year") (renamed_columns columns).

(** *** The broad category of a class *)

Definition get_category (c : option string) : string :=
  let c := lower (str c) in
  if contains "iron" c || contains "mesosiderite" c || contains "pallasite" c
  then "Iron / Stony-Iron"
  else if contains "chondrite" c then "Stony (Chondrite)"
  else if contains "achondrite" c || contains "martian" c || contains "lunar" c
  then "Stony (Achondrite)"
  else "Other / Unknown".

End Update.

(** ** clean_final_data.py *)

Module Finalize.

(** [clean_fall(val)] *)
Definition clean_fall (val : option string) : string :=
  let s := strip (lower (str val)) in
  if existsb (String.eqb s) ["yc"; "yp"; "y"; "yes"; "fell"] then "Fell"
  else "Found".

Definition year_min : Z := 860.
Definition year_max : Z := 2026.

Section Pipeline.

(** [np.log10] on a positive mass; its values play no part below. *)
Variable log10 : Q -> Q.

(** [df['fall'] = df['fall'].apply(clean_fall)] *)
Definition fix_fall (r : row) : row :=
  {| name := name r; id := id r; recclass := recclass r; mass_g := mass_g r;
     fall := Some (clean_fall (fall r)); year := year r; reclat := reclat r;
     reclong := reclong r; year_int := year_int r; mass_log := mass_log r;
     category_broad := category_broad r |}.

(** [df['mass (g)'] = pd.to_numeric(df['mass (g)'], errors='coerce').fillna(0)] *)
Definition fill_mass (r : row) : row :=
  {| name := name r; id := id r; recclass := recclass r;
     mass_g := Some (Update.fillna0 (mass_g r));
     fall := fall r; year := year r; reclat := reclat r;
     reclong := reclong r; year_int := year_int r; mass_log := mass_log r;
     category_broad := category_broad r |}.

(** [df['mass (g)'] > 0] *)
Definition mass_positive (r : row) : bool :=
  Update.Qlt_bool 0 (Update.fillna0 (mass_g r)).

(** [df['mass_log'] = np.log10(df['mass (g)'])] *)
Definition set_mass_log (r : row) : row :=
  {| name := name r; id := id r; recclass := recclass r; mass_g := mass_g r;
     fall := fall r; year := year r; reclat := reclat r;
     reclong := reclong r; year_int := year_int r;
     mass_log := option_map log10 (mass_g r);
     category_broad := category_broad r |}.

(** [pd.to_numeric(df['year_int'], errors='coerce').fillna(0).astype(int)];
    the cells of this column are whole numbers, both scripts that write
    it use [astype(int)]. *)
Definition fill_year_int (r : row) : row :=
  {| name := name r; id := id r; recclass := recclass r; mass_g := mass_g r;
     fall := fall r; year := year r; reclat := reclat r;
     reclong := reclong r;
     year_int := Some (match year_int r with Some y => y | None => 0 end);
     mass_log := mass_log r; category_broad := category_broad r |}.

(** [(df['year_int'] >= 860) & (df['year_int'] <= 2026)] *)
Definition year_valid (r : row) : bool :=
  match year_int r with
  | Some y => (year_min <=? y) && (y <=? year_max)
  | None => false
  end.

(** [clean_and_finalize], from the frame read to the frame written. The
    coordinates are numeric cells already, so that [pd.to_numeric] leaves
    them as they are. *)
Definition clean_and_finalize (df : DataFrame) : DataFrame :=
  let df := filter (fun r => notna (name r)) df in
  let df := map fix_fall df in
  let df := map fill_mass df in
  let df := filter mass_positive df in
  let df := map set_mass_log df in
  let df := map fill_year_int df in
  let df := filter year_valid df in
  Update.deduplicate df.

End Pipeline.

End Finalize.

(** ** Notions used to state the properties *)

(** The id of the latest match whose cleaned name is [n]. *)
Fixpoint last_code (n : string) (matches : list (Z * string)) : option Z :=
  match matches with
  | [] => None
  | (code, name_html) :: rest =>
      match last_code n rest with
      | Some c => Some c
      | None => if String.eqb (clean_name name_html) n then Some code else None
      end
  end.

(** The value of the last item of a dict whose key lowercases to [k]. *)
Fixpoint last_lower (k : string) (items : dict) : option Z :=
  match items with
  | [] => None
  | (k', v) :: rest =>
      match last_lower k rest with
      | Some w => Some w
      | None => if String.eqb (lower k') k then Some v else None
      end
  end.

(** [compareKey(name) = lowercase(trim(name))] *)
Definition compareKey (s : string) : string := lower (strip s).

(** A row that only carries a name, an id and a latitude. *)
Definition bare (n : option string) (i : option Z) (lat : option Q) : row :=
  {| name := n; id := i; recclass := None; mass_g := None; fall := None;
     year := None; reclat := lat; reclong := None; year_int := None;
     mass_log := None; category_broad := None |}.

(** Every field but [id] agrees. *)
Definition same_but_id (r r' : row) : Prop :=
  name r' = name r /\ recclass r' = recclass r /\ mass_g r' = mass_g r /\
  fall r' = fall r /\ year r' = year r /\ reclat r' = reclat r /\
  reclong r' = reclong r /\ year_int r' = year_int r /\
  mass_log r' = mass_log r /\ category_broad r' = category_broad r.

(** The pages a [for] loop goes through when [stops p] tells whether its
    body breaks at page [p]. *)
Fixpoint visited (stops : nat -> bool) (pages : list nat) : list nat :=
  match pages with
  | [] => []
  | p :: rest => p :: (if stops p then [] else visited stops rest)
  end.

(** The request of page [p] raises. *)
Definition raises (fetch : nat -> Crawl.response) (p : nat) : bool :=
  match fetch p with
  | Crawl.Raises => true
  | Crawl.Body _ _ => false
  end.

(** Page [p] has records and year tokens, the least of them below 2012. *)
Definition below_floor (fetch : nat -> Crawl.response) (p : nat) : bool :=
  match fetch p with
  | Crawl.Body (_ :: _) (y :: ys) => Crawl.min_of y ys <? 2012
  | _ => false
  end.

Definition never (p : nat) : bool := false.

(** What page [p] adds to the index. *)
Definition gather (fetch : nat -> Crawl.response) (m : dict) (p : nat) : dict :=
  match fetch p with
  | Crawl.Raises => m
  | Crawl.Body matches _ => index_matches m matches
  end.

(** The events of one page, read off the loop body run on a fresh state. *)
Definition page_log (body : nat -> Crawl.state -> Crawl.state * Crawl.flow)
  (p : nat) : list Crawl.event :=
  Crawl.log (fst (body p (Crawl.start []))).

(** [df'] comes from [df] by a succession of apply steps. *)
Definition backfilled `{Pf : Platform} (df df' : DataFrame) : Prop :=
  exists indexes : list dict,
    df' = fold_left (fun d m => apply_ids m d) indexes df.

(** The id an apply step leaves in a row: the id it had, or the id the
    lookup returns as the column holds it. *)
Definition filled_id `{Pf : Platform} (m : dict) (r : row) : option Z :=
  let v := fill_id m (name_id_map_lower m) r in
  if missing r then option_map as_id v else v.

(** A string without surrounding whitespace. *)
Definition stripped (s : string) : Prop := strip s = s.

(** [s] has the character [c]. *)
Fixpoint has_char (c : ascii) (s : string) : bool :=
  match s with
  | EmptyString => false
  | String a t => Ascii.eqb a c || has_char c t
  end.

(** The matches of the pages [ps], in the order the crawl reads them. *)
Definition matches_of (fetch : nat -> Crawl.response) (ps : list nat)
  : list (Z * string) :=
  flat_map (fun p => match fetch p with
                     | Crawl.Raises => []
                     | Crawl.Body matches _ => matches
                     end) ps.

(** A chunk the scrape may collect: it has a [year] column with a row. *)
Definition collectable {chunk : Type}
  (year_column : chunk -> option (list (option Q))) (c : chunk) : Prop :=
  exists cell col, year_column c = Some (cell :: col).

(** What [clean_and_finalize] leaves in every row. *)
Definition finalized (log10 : Q -> Q) (r : row) : Prop :=
  name r <> None /\
  (fall r = Some "Fell" \/ fall r = Some "Found") /\
  (exists q, mass_g r = Some q /\ (0 < q)%Q /\ mass_log r = Some (log10 q)) /\
  (exists y, year_int r = Some y /\ Finalize.year_min <= y <= Finalize.year_max).

(** Same name, and latitudes that compare equal. *)
Definition same_survivor (r1 r2 : row) : Prop :=
  name r1 = name r2 /\
  Update.lat_cmp (reclat r1) (reclat r2) = Eq.

(** Every field but [name] agrees. *)
Definition same_but_name (r r' : row) : Prop :=
  id r' = id r /\ recclass r' = recclass r /\ mass_g r' = mass_g r /\
  fall r' = fall r /\ year r' = year r /\ reclat r' = reclat r /\
  reclong r' = reclong r /\ year_int r' = year_int r /\
  mass_log r' = mass_log r /\ category_broad r' = category_broad r.

(** *** Data of the scenarios *)

Definition nwa_page : list (Z * string) := [(1234, "NWA 869")].

Definition allende_twice : list (Z * string) :=
  [(1, "Allende"); (2, "allende")].

Definition allende_thrice : list (Z * string) :=
  [(1, "Allende"); (2, "allende"); (3, "Allende")].

Definition allende_rows : DataFrame :=
  [bare (Some "Allende") (Some 0) None;
   bare (Some "allende") (Some 0) None;
   bare (Some " Allende ") (Some 0) None].

(** Page 0 has no link, page 1 has one. *)
Definition empty_then_nwa (page : nat) : Crawl.response :=
  match page with
  | 1%nat => Crawl.Body nwa_page []
  | _ => Crawl.Body [] []
  end.

(** The request of page 0 fails, the other pages have one link. *)
Definition down_at_first (page : nat) : Crawl.response :=
  match page with
  | 0%nat => Crawl.Raises
  | _ => Crawl.Body nwa_page []
  end.

(** Page 0 has a record of 2011. *)
Definition old_at_first (page : nat) : Crawl.response :=
  match page with
  | 0%nat => Crawl.Body nwa_page [2011]
  | _ => Crawl.Body [] []
  end.

(** The order of [sort_values], as a relation. *)
Definition row_le (a b : row) : Prop := Update.row_leb a b = true.

(** Every page has a record of 1999. *)
Definition old_everywhere (page : nat) : Crawl.response :=
  Crawl.Body nwa_page [1999].

Definition nwa_frame : DataFrame := [bare (Some "NWA 869") (Some 0) None].

(** A table page with the years 2015 and 2010, then no table. *)
Definition mixed_years (page : nat) : Update.scrape (list (option Q)) :=
  match page with
  | 0%nat => Update.Table [Some (2015 # 1); Some (2010 # 1)]
  | _ => Update.NoTable
  end.

(** Every page has the record "NWA 869" and no year token. *)
Definition nwa_everywhere (page : nat) : Crawl.response :=
  Crawl.Body nwa_page [].

(** Page 0 holds a table without a year column, page 1 holds no table;
    a chunk is given by its year column, when it has one. *)
Definition no_year_then_end (page : nat)
  : Update.scrape (option (list (option Q))) :=
  match page with
  | 0%nat => Update.Table None
  | _ => Update.NoTable
  end.

(** ** Dicts *)

Lemma get_set_same (d : dict) (k : string) (v : Z) :
  get (set d k v) k = Some v.
Proof.
  induction d as [|[k' v'] d IH]; simpl.
  - now rewrite String.eqb_refl.
  - destruct (String.eqb k k') eqn:E; simpl; rewrite E; auto.
Qed.

Lemma get_set_other (d : dict) (k k' : string) (v : Z) :
  k <> k' -> get (set d k v) k' = get d k'.
Proof.
  intros Hne. induction d as [|[k0 v0] d IH]; simpl.
  - destruct (String.eqb k' k) eqn:E; auto.
    apply String.eqb_eq in E. congruence.
  - destruct (String.eqb k k0) eqn:E; simpl.
    + apply String.eqb_eq in E. subst k0.
      destruct (String.eqb k' k) eqn:E'; auto.
      apply String.eqb_eq in E'. congruence.
    + now rewrite IH.
Qed.

Lemma get_In (d : dict) (k : string) (v : Z) :
  get d k = Some v -> In (k, v) d.
Proof.
  induction d as [|[k' v'] d IH]; simpl; [discriminate|].
  destruct (String.eqb k k') eqn:E.
  - apply String.eqb_eq in E. intros [= ->]. left. congruence.
  - intros H. right. auto.
Qed.

Lemma In_get (d : dict) (k : string) (v : Z) :
  In (k, v) d -> exists w, get d k = Some w.
Proof.
  induction d as [|[k' v'] d IH]; simpl; [tauto|].
  intros [H|H].
  - inversion H; subst. rewrite String.eqb_refl. eauto.
  - destruct (String.eqb k k'); eauto.
Qed.

Lemma NoDup_get (d : dict) (k : string) (v : Z) :
  NoDup (keys d) -> In (k, v) d -> get d k = Some v.
Proof.
  induction d as [|[k' v'] d IH]; simpl; [tauto|].
  intros Hnd [H|H]; inversion Hnd as [|? ? Hnotin Hnd']; subst.
  - inversion H; subst. now rewrite String.eqb_refl.
  - destruct (String.eqb k k') eqn:E; auto.
    apply String.eqb_eq in E. subst k'.
    exfalso. apply Hnotin. unfold keys.
    change k with (fst (k, v)). now apply in_map.
Qed.

Lemma keys_set (d : dict) (k : string) (v : Z) :
  keys (set d k v) = if existsb (String.eqb k) (keys d) then keys d
                     else (keys d ++ [k])%list.
Proof.
  induction d as [|[k' v'] d IH]; simpl; auto.
  destruct (String.eqb k k') eqn:E; simpl; auto.
  rewrite IH. now destruct (existsb (String.eqb k) (keys d)).
Qed.

Lemma NoDup_set (d : dict) (k : string) (v : Z) :
  NoDup (keys d) -> NoDup (keys (set d k v)).
Proof.
  intros Hnd. rewrite keys_set.
  destruct (existsb (String.eqb k) (keys d)) eqn:E; auto.
  apply NoDup_app; auto.
  - repeat constructor. simpl. tauto.
  - intros x Hx [<-|[]].
    assert (existsb (String.eqb k) (keys d) = true); [|congruence].
    apply existsb_exists. exists k. split; auto. apply String.eqb_refl.
Qed.

(** ** The index and its lowercase companion *)

Lemma index_matches_app (m : dict) (p1 p2 : list (Z * string)) :
  index_matches m (p1 ++ p2) = index_matches (index_matches m p1) p2.
Proof. unfold index_matches. apply fold_left_app. Qed.

Lemma index_matches_get (ms : list (Z * string)) :
  forall (m : dict) (n : string),
    get (index_matches m ms) n =
    match last_code n ms with
    | Some c => Some c
    | None => get m n
    end.
Proof.
  induction ms as [|[code h] ms IH]; intros m n; simpl; auto.
  unfold index_matches in *. simpl. rewrite IH.
  destruct (last_code n ms); auto.
  destruct (String.eqb (clean_name h) n) eqn:E.
  - apply String.eqb_eq in E. subst n. apply get_set_same.
  - apply String.eqb_neq in E. now apply get_set_other.
Qed.

Lemma index_matches_NoDup (ms : list (Z * string)) :
  forall m : dict, NoDup (keys m) -> NoDup (keys (index_matches m ms)).
Proof.
  induction ms as [|[code h] ms IH]; intros m Hm; simpl; auto.
  apply IH. now apply NoDup_set.
Qed.

Lemma In_set (d : dict) (k k' : string) (v v' : Z) :
  In (k', v') (set d k v) -> (k' = k /\ v' = v) \/ In (k', v') d.
Proof.
  induction d as [|[k0 v0] d IH]; simpl.
  - intros [H|[]]. inversion H. auto.
  - destruct (String.eqb k k0) eqn:E; simpl.
    + apply String.eqb_eq in E. subst k0.
      intros [H|H]; [inversion H|]; auto.
    + intros [H|H]; auto. destruct (IH H); auto.
Qed.

Lemma index_matches_In (ms : list (Z * string)) :
  forall (m : dict) (k : string) (v : Z),
    In (k, v) (index_matches m ms) ->
    In (k, v) m \/ exists h, In (v, h) ms /\ clean_name h = k.
Proof.
  induction ms as [|[code h] ms IH]; intros m k v; simpl; auto.
  intros H. apply IH in H. destruct H as [H|[h' [H1 H2]]].
  - apply In_set in H. destruct H as [[-> ->]|H]; eauto.
  - eauto.
Qed.

Lemma lower_fold_get (items : dict) :
  forall (acc : dict) (k : string),
    get (fold_left (fun m kv => set m (lower (fst kv)) (snd kv)) items acc) k =
    match last_lower k items with
    | Some v => Some v
    | None => get acc k
    end.
Proof.
  induction items as [|[k' v] items IH]; intros acc k; simpl; auto.
  rewrite IH. destruct (last_lower k items); auto.
  destruct (String.eqb (lower k') k) eqn:E.
  - apply String.eqb_eq in E. subst k. apply get_set_same.
  - apply String.eqb_neq in E. now apply get_set_other.
Qed.

Lemma name_id_map_lower_get (m : dict) (k : string) :
  get (name_id_map_lower m) k = last_lower k m.
Proof.
  unfold name_id_map_lower. rewrite lower_fold_get.
  now destruct (last_lower k m).
Qed.

Lemma last_lower_In (m : dict) (k : string) (v : Z) :
  last_lower k m = Some v -> exists k', In (k', v) m /\ lower k' = k.
Proof.
  induction m as [|[k0 v0] m IH]; simpl; [discriminate|].
  destruct (last_lower k m) as [w|].
  - intros [= ->]. destruct (IH eq_refl) as [k' [H1 H2]]. eauto.
  - destruct (String.eqb (lower k0) k) eqn:E; [|discriminate].
    apply String.eqb_eq in E. intros [= ->]. eauto.
Qed.

Lemma In_last_lower (m : dict) (k : string) (v : Z) :
  In (k, v) m -> exists w, last_lower (lower k) m = Some w.
Proof.
  induction m as [|[k0 v0] m IH]; simpl; [tauto|].
  intros [H|H].
  - inversion H; subst. destruct (last_lower (lower k) m); eauto.
    rewrite String.eqb_refl. eauto.
  - destruct (IH H) as [w ->]. eauto.
Qed.

Lemma last_lower_single_spelling (m : dict) (n : string) (c : Z) :
  NoDup (keys m) ->
  In (n, c) m ->
  (forall k v, In (k, v) m -> lower k = lower n -> k = n) ->
  last_lower (lower n) m = Some c.
Proof.
  intros Hnd Hin Hone.
  destruct (In_last_lower m n c Hin) as [w Hw].
  destruct (last_lower_In m _ w Hw) as [k' [Hk' Hl]].
  apply (Hone k' w Hk') in Hl. subst k'.
  pose proof (NoDup_get m n c Hnd Hin) as H1.
  pose proof (NoDup_get m n w Hnd Hk') as H2.
  congruence.
Qed.

(** ** The backfill *)

Section Backfill.

Context `{Pf : Platform}.

Lemma as_id_small (v : Z) : Z.abs v <= 2 ^ 53 -> as_id v = v.
Proof.
  intros Hv. unfold as_id. apply Z.leb_le in Hv. now rewrite Hv.
Qed.

Lemma as_id_0 : as_id 0 = 0.
Proof. reflexivity. Qed.

(** The nearest double of an int of magnitude up to 2^53 is that int:
    the guard of [as_id] loses nothing in a float column. *)
Lemma float64_of_int_small (v : Z) :
  Z.abs v <= 2 ^ 53 -> float64_of_int v = v.
Proof.
  intros Hv. unfold float64_of_int.
  destruct (Z.eq_dec (Z.abs v) (2 ^ 53)) as [He|Hne].
  - rewrite He. cbv zeta.
    change (Z.log2 (2 ^ 53) - 52 <=? 0) with false. cbv iota.
    change (2 ^ (Z.log2 (2 ^ 53) - 52)) with 2.
    change (2 * (2 ^ 53 mod 2) ?= 2) with Lt. cbv iota.
    change (2 ^ 53 / 2 * 2) with (2 ^ 53). rewrite <- He.
    rewrite Z.mul_comm. apply Z.abs_sgn.
  - assert (Hlt : Z.abs v < 2 ^ 53) by lia.
    assert (Hl : Z.log2 (Z.abs v) - 52 <= 0).
    { destruct (Z.eq_dec (Z.abs v) 0) as [H0|H0].
      - rewrite H0. simpl. lia.
      - assert (Hp : 0 < Z.abs v) by lia.
        apply (Z.log2_lt_pow2 _ 53 Hp) in Hlt. lia. }
    apply Z.leb_le in Hl. now rewrite Hl.
Qed.

Lemma apply_ids_map (m : dict) (df : DataFrame) :
  apply_ids m df = map (fun r => set_id r (filled_id m r)) df.
Proof.
  unfold apply_ids, assign_id, df_apply, filled_id.
  induction df as [|r df IH]; simpl; auto. now rewrite IH.
Qed.

Lemma fill_id_resolved (m l : dict) (r : row) (v : Z) :
  id r = Some v -> v <> 0 -> fill_id m l r = Some v.
Proof.
  intros Hid Hv. unfold fill_id. rewrite Hid. simpl.
  apply Z.eqb_neq in Hv. now rewrite Hv.
Qed.

Lemma fill_id_missing (m l : dict) (r : row) :
  missing r = true ->
  fill_id m l r =
  match get m (strip (str (name r))) with
  | Some v => Some v
  | None =>
      match get l (lower (strip (str (name r)))) with
      | Some v => Some v
      | None => Some 0
      end
  end.
Proof.
  unfold missing, fill_id. destruct (id r) as [v|]; simpl; auto.
  intros ->. reflexivity.
Qed.

Lemma fill_id_stable (m l : dict) (r : row) :
  fill_id m l (set_id r (fill_id m l r)) = fill_id m l r.
Proof.
  destruct (missing r) eqn:Hr.
  - rewrite (fill_id_missing m l r Hr).
    set (x := match get m _ with Some v => Some v | None => _ end).
    assert (Hx : exists v, x = Some v).
    { subst x. destruct (get m _); eauto. destruct (get l _); eauto. }
    destruct Hx as [v Hv]. rewrite Hv.
    destruct (Z.eq_dec v 0) as [->|Hne].
    + rewrite fill_id_missing by reflexivity. simpl. exact Hv.
    + now apply fill_id_resolved.
  - unfold missing in Hr. destruct (id r) as [v|] eqn:Hid; [|discriminate].
    apply Z.eqb_neq in Hr.
    rewrite (fill_id_resolved m l r v Hid Hr).
    now apply fill_id_resolved.
Qed.

(** What the lookup returns for a row that is missing its id. *)
Lemma fill_id_found (m l : dict) (r : row) :
  missing r = true -> exists v, fill_id m l r = Some v.
Proof.
  intros Hm. rewrite (fill_id_missing m l r Hm).
  destruct (get m _); eauto. destruct (get l _); eauto.
Qed.

Lemma filled_id_resolved (m : dict) (r : row) (v : Z) :
  id r = Some v -> v <> 0 -> filled_id m r = Some v.
Proof.
  intros Hid Hv. unfold filled_id.
  assert (Hm : missing r = false).
  { unfold missing. rewrite Hid. now apply Z.eqb_neq. }
  rewrite Hm. now apply fill_id_resolved.
Qed.

Lemma filled_id_missing (m : dict) (r : row) :
  missing r = true ->
  filled_id m r = option_map as_id (fill_id m (name_id_map_lower m) r).
Proof. intros Hm. unfold filled_id. now rewrite Hm. Qed.

(** An apply step is stable row by row. *)
Lemma filled_id_stable (m : dict) (r : row) :
  filled_id m (set_id r (filled_id m r)) = filled_id m r.
Proof.
  destruct (missing r) eqn:Hr.
  - rewrite (filled_id_missing m r Hr).
    destruct (fill_id_found m (name_id_map_lower m) r Hr) as [v Hv].
    rewrite Hv. cbn [option_map].
    destruct (Z.eq_dec (as_id v) 0) as [H0|Hne].
    + rewrite filled_id_missing by (unfold missing; simpl; now rewrite H0).
      rewrite (fill_id_missing _ _ (set_id r _)) by
        (unfold missing; simpl; now rewrite H0).
      rewrite (fill_id_missing _ _ r Hr) in Hv. simpl.
      simpl in Hv. now rewrite Hv.
    + now apply filled_id_resolved.
  - unfold missing in Hr. destruct (id r) as [v|] eqn:Hid; [|discriminate].
    apply Z.eqb_neq in Hr.
    rewrite (filled_id_resolved m r v Hid Hr).
    now apply filled_id_resolved.
Qed.

Lemma apply_ids_frame (m : dict) (df : DataFrame) :
  Forall2 same_but_id df (apply_ids m df).
Proof.
  rewrite apply_ids_map. induction df as [|r df IH]; simpl.
  - constructor.
  - constructor; [|exact IH]. unfold same_but_id. simpl. tauto.
Qed.

Lemma apply_ids_resolved (m : dict) (df : DataFrame) (i : nat) (r : row) (v : Z) :
  nth_error df i = Some r -> id r = Some v -> v <> 0 ->
  exists r', nth_error (apply_ids m df) i = Some r' /\ id r' = Some v.
Proof.
  intros Hi Hid Hv. rewrite apply_ids_map, nth_error_map, Hi. simpl.
  eexists. split; [reflexivity|]. simpl. now apply filled_id_resolved.
Qed.

End Backfill.

(** C1. For every dataset and every index, the backfill leaves a record
    whose id is present and non-zero with exactly that id, whatever the
    index says about its name: in the frame returned by the apply step
    and in the file that [_apply_and_save] writes. *)
Theorem backfill_never_overwrites `{Pf : Platform}
  (m : dict) (df : DataFrame) (i : nat) (r : row) (v : Z) :
  nth_error df i = Some r -> id r = Some v -> v <> 0 ->
  option_map id (nth_error (apply_ids m df) i) = Some (Some v) /\
  option_map id (nth_error (fst (_apply_and_save df m)) i) = Some (Some v) /\
  option_map id (nth_error (snd (_apply_and_save df m)) i) = Some (Some v).
Proof.
  intros Hi Hid Hv.
  assert (H : option_map id (nth_error (apply_ids m df) i) = Some (Some v)).
  { destruct (apply_ids_resolved m df i r v Hi Hid Hv) as [r' [-> Hr']].
    simpl. now rewrite Hr'. }
  repeat split; exact H.
Qed.

Lemma backfill_never_overwrites_witness :
  let df := [bare (Some "Hoba") (Some 7) None] in
  let m := [("Hoba", 9)] in
  get m "Hoba" = Some 9 /\
  option_map id (nth_error (apply_ids m df) 0) = Some (Some 7).
Proof.
  split; [reflexivity|].
  apply (backfill_never_overwrites [("Hoba", 9)]
           [bare (Some "Hoba") (Some 7) None] 0
           (bare (Some "Hoba") (Some 7) None) 7);
    [reflexivity | reflexivity | discriminate].
Defined.

(** C2. Applying the backfill twice with the same index gives the same
    dataset as applying it once. *)
Theorem backfill_idempotent `{Pf : Platform} (m : dict) (df : DataFrame) :
  apply_ids m (apply_ids m df) = apply_ids m df /\
  _apply_and_save (fst (_apply_and_save df m)) m = _apply_and_save df m.
Proof.
  assert (Hs : apply_ids m (apply_ids m df) = apply_ids m df).
  { rewrite !apply_ids_map, map_map. apply map_ext. intros r.
    rewrite filled_id_stable. reflexivity. }
  split; [exact Hs|].
  unfold _apply_and_save. simpl. now rewrite Hs.
Qed.

(** C3 (as the code has it). A record whose id is 0 gets the id stored
    under its stripped name in the exact map; failing that, the id stored
    under the lowercased stripped name in the lowercase map; failing
    that, 0. The id found is assigned as the [id] column holds it: it is
    the found id itself whenever its magnitude is at most 2^53. With an
    index holding "NWA 869" -> 1234 the record named "NWA 869" gets
    1234. *)
Theorem backfill_lookup_tiers `{Pf : Platform}
  (m : dict) (df : DataFrame) (i : nat) (r : row) :
  nth_error df i = Some r -> id r = Some 0 ->
  let key := strip (str (name r)) in
  let found := option_map id (nth_error (apply_ids m df) i) in
  (forall v, get m key = Some v ->
             found = Some (Some (as_id v)) /\
             (Z.abs v <= 2 ^ 53 -> found = Some (Some v))) /\
  (get m key = None ->
   forall v, get (name_id_map_lower m) (lower key) = Some v ->
             found = Some (Some (as_id v)) /\
             (Z.abs v <= 2 ^ 53 -> found = Some (Some v))) /\
  (get m key = None -> get (name_id_map_lower m) (lower key) = None ->
   found = Some (Some 0)) /\
  (name r = Some "NWA 869" -> get m "NWA 869" = Some 1234 ->
   found = Some (Some 1234)).
Proof.
  intros Hi Hid key found.
  assert (Hm : missing r = true) by (unfold missing; now rewrite Hid).
  assert (Hf : found =
               Some (option_map as_id (fill_id m (name_id_map_lower m) r))).
  { subst found. rewrite apply_ids_map, nth_error_map, Hi. simpl.
    now rewrite (filled_id_missing m r Hm). }
  rewrite (fill_id_missing _ _ r Hm) in Hf. fold key in Hf.
  split; [|split; [|split]].
  - intros v Hg. rewrite Hf, Hg. simpl. split; [reflexivity|].
    intros Hv. now rewrite as_id_small.
  - intros Hn v Hg. rewrite Hf, Hn, Hg. simpl. split; [reflexivity|].
    intros Hv. now rewrite as_id_small.
  - intros Hn Hl. now rewrite Hf, Hn, Hl.
  - intros Hname Hv. subst key. rewrite Hname in Hf.
    change (strip (str (Some "NWA 869"))) with "NWA 869" in Hf.
    now rewrite Hf, Hv.
Qed.

Lemma backfill_lookup_tiers_witness :
  let m := index_matches [] nwa_page in
  let df := [bare (Some "NWA 869") (Some 0) None] in
  m = [("NWA 869", 1234)] /\
  option_map id (nth_error (apply_ids m df) 0) = Some (Some 1234).
Proof.
  split; [reflexivity|].
  apply (backfill_lookup_tiers (index_matches [] nwa_page)
           [bare (Some "NWA 869") (Some 0) None] 0
           (bare (Some "NWA 869") (Some 0) None) eq_refl eq_refl);
    reflexivity.
Defined.

(** C3 as stated fails where the [id] column holds floats. "Hoba" has
    the id 7 and "Nix" has no id, so that the column is read as float64;
    "Zag" has the id 0 and the index holds "Zag" -> 2^53 + 1. The apply
    step returns 7.0 for "Hoba", so that its series is float64, and
    "Zag" is left with 2^53, not with the id found. *)
Lemma backfill_rounds_wide_id :
  let m := [("Zag", 9007199254740993)] in
  let df := [bare (Some "Hoba") (Some 7) None;
             bare (Some "Zag") (Some 0) None;
             bare (Some "Nix") None None] in
  get m (strip (str (Some "Zag"))) = Some 9007199254740993 /\
  map id (@apply_ids pandas2 m df)
  = [Some 7; Some 9007199254740992; Some 0] /\
  option_map id (nth_error (@apply_ids pandas2 m df) 1)
  <> Some (Some 9007199254740993).
Proof. repeat split. discriminate. Qed.

(** C10. The apply step touches the [id] column only: row by row, every
    other field of the result is the field of the input, and no row is
    added or dropped. *)
Theorem backfill_writes_only_id `{Pf : Platform} (m : dict) (df : DataFrame) :
  Forall2 same_but_id df (apply_ids m df) /\
  Forall2 same_but_id df (fst (_apply_and_save df m)) /\
  Forall2 same_but_id df (snd (_apply_and_save df m)).
Proof.
  pose proof (apply_ids_frame m df) as H.
  repeat split; exact H.
Qed.

(** C8 (as the code has it). When a cleaned name is extracted more than
    once in a session, the exact map holds the id of its latest
    occurrence; the lowercase map holds that id under the lowercased name
    provided no other spelling with the same lowercase form was
    extracted. *)
Theorem index_last_write_wins (ms : list (Z * string)) (n : string) (c : Z) :
  last_code n ms = Some c ->
  let m := index_matches [] ms in
  get m n = Some c /\
  ((forall c' h, In (c', h) ms ->
                 lower (clean_name h) = lower n -> clean_name h = n) ->
   get (name_id_map_lower m) (lower n) = Some c).
Proof.
  intros Hlast m.
  assert (Hget : get m n = Some c).
  { subst m. now rewrite index_matches_get, Hlast. }
  split; [exact Hget|].
  intros Hone. rewrite name_id_map_lower_get.
  apply last_lower_single_spelling.
  - subst m. apply index_matches_NoDup. constructor.
  - now apply get_In.
  - intros k v Hin Hl. subst m.
    apply index_matches_In in Hin. destruct Hin as [[]|[h [Hh Hk]]].
    subst k. eapply Hone; eauto.
Qed.

Lemma index_last_write_wins_witness :
  let ms := [(1, "NWA 869"); (2, "<b>NWA&nbsp;869</b>")] in
  last_code "NWA 869" ms = Some 2 /\
  get (index_matches [] ms) "NWA 869" = Some 2 /\
  get (name_id_map_lower (index_matches [] ms)) (lower "NWA 869") = Some 2.
Proof.
  split; [reflexivity|].
  pose proof (index_last_write_wins
                [(1, "NWA 869"); (2, "<b>NWA&nbsp;869</b>")] "NWA 869" 2
                eq_refl) as [H1 H2].
  split; [exact H1|].
  apply H2. intros c' h [H|[H|[]]] _; inversion H; reflexivity.
Defined.

(** C8 as stated fails on the lowercase map: "Allende" is extracted with
    ids 1 and 3 and "allende" with id 2 in between; the exact map holds
    the latest id 3 under "Allende", the lowercase map holds 2. *)
Lemma lowercase_map_not_last_write :
  last_code "Allende" allende_thrice = Some 3 /\
  get (index_matches [] allende_thrice) "Allende" = Some 3 /\
  get (name_id_map_lower (index_matches [] allende_thrice)) (lower "Allende")
    = Some 2 /\
  get (name_id_map_lower (index_matches [] allende_thrice)) (lower "Allende")
    <> last_code "Allende" allende_thrice.
Proof. repeat split; try reflexivity. discriminate. Qed.

Lemma fill_id_by_key (m : dict) (key : string) (r : row) :
  (forall k1 v1 k2 v2, In (k1, v1) m -> In (k2, v2) m ->
                       lower k1 = key -> lower k2 = key -> v1 = v2) ->
  missing r = true ->
  compareKey (str (name r)) = key ->
  fill_id m (name_id_map_lower m) r =
  Some (match last_lower key m with Some w => w | None => 0 end).
Proof.
  intros Hsame Hm Hkey. rewrite (fill_id_missing _ _ r Hm).
  unfold compareKey in Hkey. rewrite Hkey, name_id_map_lower_get.
  destruct (get m (strip (str (name r)))) as [v|] eqn:Hg.
  - apply get_In in Hg.
    destruct (In_last_lower m _ v Hg) as [w Hw]. rewrite Hkey in Hw.
    rewrite Hw. destruct (last_lower_In m key w Hw) as [k' [Hk' Hl]].
    f_equal. eapply Hsame; eauto.
  - now destruct (last_lower key m).
Qed.

(** C9 (as the code has it). "Allende", "allende" and " Allende " have
    the same comparison key, and unresolved records so named receive the
    same id from the backfill provided the index entries whose names
    lowercase to that key all carry one id. *)
Theorem allende_spellings_same_id `{Pf : Platform} (m : dict) (r1 r2 r3 : row) :
  name r1 = Some "Allende" -> name r2 = Some "allende" ->
  name r3 = Some " Allende " ->
  missing r1 = true -> missing r2 = true -> missing r3 = true ->
  (forall k1 v1 k2 v2, In (k1, v1) m -> In (k2, v2) m ->
     lower k1 = "allende" -> lower k2 = "allende" -> v1 = v2) ->
  compareKey "Allende" = "allende" /\
  compareKey "allende" = "allende" /\
  compareKey " Allende " = "allende" /\
  exists x, map id (apply_ids m [r1; r2; r3]) = [x; x; x].
Proof.
  intros N1 N2 N3 M1 M2 M3 Hsame.
  repeat split; try reflexivity.
  exists (Some (as_id (match last_lower "allende" m with
                       | Some w => w
                       | None => 0
                       end))).
  rewrite apply_ids_map. simpl.
  rewrite !filled_id_missing by assumption.
  rewrite (fill_id_by_key m "allende" r1 Hsame M1) by (now rewrite N1).
  rewrite (fill_id_by_key m "allende" r2 Hsame M2) by (now rewrite N2).
  rewrite (fill_id_by_key m "allende" r3 Hsame M3) by (now rewrite N3).
  reflexivity.
Qed.

Lemma allende_spellings_same_id_witness :
  exists x, map id (apply_ids [("ALLENDE", 5)] allende_rows) = [x; x; x].
Proof.
  refine (proj2 (proj2 (proj2
            (allende_spellings_same_id [("ALLENDE", 5)]
               (bare (Some "Allende") (Some 0) None)
               (bare (Some "allende") (Some 0) None)
               (bare (Some " Allende ") (Some 0) None)
               eq_refl eq_refl eq_refl eq_refl eq_refl eq_refl _)))).
  intros k1 v1 k2 v2 [H1|[]] [H2|[]] _ _. congruence.
Defined.

(** C9 as stated fails: with both spellings indexed under different ids
    the exact tier answers first, so "Allende" and " Allende " get 1 and
    "allende" gets 2. *)
Lemma allende_spellings_differ :
  index_matches [] allende_twice = [("Allende", 1); ("allende", 2)] /\
  map compareKey ["Allende"; "allende"; " Allende "]
    = ["allende"; "allende"; "allende"] /\
  map id (apply_ids (index_matches [] allende_twice) allende_rows)
    = [Some 1; Some 2; Some 1].
Proof. repeat split. Qed.

(** ** The crawl loops *)

Module CrawlProps.

Import Crawl.

Lemma requested_app (l1 l2 : list event) :
  requested (l1 ++ l2) = (requested l1 ++ requested l2)%list.
Proof.
  induction l1 as [|e l1 IH]; simpl; auto.
  destruct e; simpl; now rewrite IH.
Qed.

Lemma log_emit (e : event) (st : state) : log (emit e st) = (log st ++ [e])%list.
Proof. reflexivity. Qed.

Lemma log_add_matches (ms : list (Z * string)) (st : state) :
  log (add_matches ms st) = log st.
Proof. reflexivity. Qed.

Lemma log_checkpoint `{Pf : Platform} (st : state) : log (checkpoint st) = (log st ++ [Save])%list.
Proof. reflexivity. Qed.

Lemma index_emit (e : event) (st : state) : index (emit e st) = index st.
Proof. reflexivity. Qed.

Lemma index_add_matches (ms : list (Z * string)) (st : state) :
  index (add_matches ms st) = index_matches (index st) ms.
Proof. reflexivity. Qed.

Lemma index_checkpoint `{Pf : Platform} (st : state) : index (checkpoint st) = index st.
Proof. reflexivity. Qed.

Lemma frame_emit (e : event) (st : state) : frame (emit e st) = frame st.
Proof. reflexivity. Qed.

Lemma frame_add_matches (ms : list (Z * string)) (st : state) :
  frame (add_matches ms st) = frame st.
Proof. reflexivity. Qed.

Lemma frame_checkpoint `{Pf : Platform} (st : state) :
  frame (checkpoint st) = apply_ids (index st) (frame st).
Proof. reflexivity. Qed.

Lemma file_checkpoint `{Pf : Platform} (st : state) :
  file (checkpoint st) = Some (apply_ids (index st) (frame st)).
Proof. reflexivity. Qed.

Create Rewrite HintDb crawl.
#[local] Hint Rewrite log_emit log_add_matches log_checkpoint index_emit
  index_add_matches index_checkpoint frame_emit frame_add_matches : crawl.

(** Unfolds a loop body and goes through its branches. *)
Ltac body_cases fetch p :=
  unfold page_log, gather, raises, below_floor, never,
    fill_missing_page, finish_filling_page, fill_remaining_page,
    fix_names_page, try_apply_and_save;
  destruct (fetch p) as [|[|m0 ms] [|y ys]]; simpl fst; simpl snd;
  repeat match goal with
    | |- context [if ?b then _ else _] => destruct b
    end;
  simpl fst; simpl snd; autorewrite with crawl; simpl;
  rewrite <- ?app_assoc; try reflexivity.

Section ForRange.

Variable fetch : nat -> response.
Variable body : nat -> state -> state * flow.
Variable stops : nat -> bool.

Hypothesis body_log :
  forall p st, log (fst (body p st)) = (log st ++ page_log body p)%list.
Hypothesis body_flow :
  forall p st, snd (body p st) = if stops p then Break else Continue.
Hypothesis body_index :
  forall p st, index (fst (body p st)) = gather fetch (index st) p.

Lemma for_range_log (pages : list nat) :
  forall st,
    log (for_range body pages st) =
    (log st ++ flat_map (page_log body) (visited stops pages))%list.
Proof.
  induction pages as [|p rest IH]; intros st; simpl.
  - now rewrite app_nil_r.
  - pose proof (body_log p st) as Hl. pose proof (body_flow p st) as Hf.
    destruct (body p st) as [st' fl]. simpl in Hl, Hf. subst fl.
    destruct (stops p).
    + now rewrite Hl, app_nil_r.
    + now rewrite IH, Hl, <- app_assoc.
Qed.

Lemma for_range_index (pages : list nat) :
  forall st,
    index (for_range body pages st) =
    fold_left (gather fetch) (visited stops pages) (index st).
Proof.
  induction pages as [|p rest IH]; intros st; simpl; auto.
  pose proof (body_index p st) as Hi. pose proof (body_flow p st) as Hf.
  destruct (body p st) as [st' fl]. simpl in Hi, Hf. subst fl.
  destruct (stops p); simpl.
  - exact Hi.
  - now rewrite IH, Hi.
Qed.

Hypothesis page_requests : forall p, requested (page_log body p) = [p].

Lemma requested_pages (ps : list nat) :
  requested (flat_map (page_log body) ps) = ps.
Proof.
  induction ps as [|p ps IH]; simpl; auto.
  now rewrite requested_app, page_requests, IH.
Qed.

Lemma for_range_requested (pages : list nat) (df : DataFrame) :
  requested (log (for_range body pages (start df))) = visited stops pages.
Proof. rewrite for_range_log. simpl. apply requested_pages. Qed.

End ForRange.

(** *** The pages a loop goes through *)

Lemma visited_never (pages : list nat) : visited never pages = pages.
Proof. induction pages as [|p rest IH]; simpl; now rewrite ?IH. Qed.

Lemma visited_all (stops : nat -> bool) (pages : list nat) :
  (forall p, In p pages -> stops p = false) -> visited stops pages = pages.
Proof.
  induction pages as [|p rest IH]; simpl; auto.
  intros H. rewrite (H p) by auto. now rewrite IH by auto.
Qed.

Lemma visited_incl (stops : nat -> bool) (pages : list nat) (q : nat) :
  In q (visited stops pages) -> In q pages.
Proof.
  induction pages as [|p rest IH]; simpl; auto.
  intros [H|H]; auto. destruct (stops p); [destruct H|auto].
Qed.

Lemma visited_NoDup (stops : nat -> bool) (pages : list nat) :
  NoDup pages -> NoDup (visited stops pages).
Proof.
  induction pages as [|p rest IH]; simpl; intros Hnd; [constructor|].
  inversion Hnd as [|? ? Hnotin Hrest]; subst.
  constructor.
  - destruct (stops p); [simpl; tauto|].
    intros H. apply Hnotin. eapply visited_incl; eauto.
  - destruct (stops p); [constructor|auto].
Qed.

(** After a page that does not stop the loop, the next page of the range
    is requested. *)
Lemma visited_next (stops : nat -> bool) (n : nat) :
  forall a p,
    In p (visited stops (seq a n)) -> stops p = false ->
    (S p < a + n)%nat -> In (S p) (visited stops (seq a n)).
Proof.
  induction n as [|n IH]; intros a p; simpl; [tauto|].
  intros [Hp|Hp] Hs Hlt.
  - subst p. rewrite Hs. right.
    destruct n as [|n]; [lia|]. simpl. now left.
  - destruct (stops a) eqn:Ha; [destruct Hp|].
    right. apply IH; auto. lia.
Qed.

(** A page that stops the loop is the last one requested. *)
Lemma visited_last (stops : nat -> bool) (n : nat) :
  forall a p q,
    In p (visited stops (seq a n)) -> stops p = true ->
    In q (visited stops (seq a n)) -> (q <= p)%nat.
Proof.
  induction n as [|n IH]; intros a p q; simpl; [tauto|].
  intros [Hp|Hp] Hs [Hq|Hq].
  - lia.
  - subst p. rewrite Hs in Hq. destruct Hq.
  - subst q. destruct (stops a); [destruct Hp|].
    apply visited_incl, in_seq in Hp. lia.
  - destruct (stops a); [destruct Hp|]. eapply IH; eauto.
Qed.

(** Up to the first page that stops the loop every page is requested. *)
Lemma visited_until (stops : nat -> bool) (n : nat) :
  forall a p,
    (a <= p < a + n)%nat ->
    (forall q, (a <= q < p)%nat -> stops q = false) ->
    In p (visited stops (seq a n)).
Proof.
  induction n as [|n IH]; intros a p Hp Hq; simpl; [lia|].
  destruct (Nat.eq_dec a p) as [->|Hne]; [now left|].
  right. rewrite (Hq a) by lia. apply IH; [lia|].
  intros q Hq'. apply Hq. lia.
Qed.

(** *** The three loop bodies *)

Section Bodies.

Context `{Pf : Platform}.
Variable fetch : nat -> response.

Lemma fill_missing_log p st :
  log (fst (fill_missing_page fetch p st)) =
  (log st ++ page_log (fill_missing_page fetch) p)%list.
Proof. body_cases fetch p. Qed.

Lemma fill_missing_flow p st :
  snd (fill_missing_page fetch p st) =
  if raises fetch p then Break else Continue.
Proof. body_cases fetch p. Qed.

Lemma fill_missing_index p st :
  index (fst (fill_missing_page fetch p st)) = gather fetch (index st) p.
Proof. body_cases fetch p. Qed.

Lemma fill_missing_requests p :
  requested (page_log (fill_missing_page fetch) p) = [p].
Proof. body_cases fetch p. Qed.

Lemma fill_missing_frame p st :
  frame (fst (fill_missing_page fetch p st)) = frame st.
Proof. body_cases fetch p. Qed.

Lemma finish_filling_log p st :
  log (fst (finish_filling_page fetch p st)) =
  (log st ++ page_log (finish_filling_page fetch) p)%list.
Proof. body_cases fetch p. Qed.

Lemma finish_filling_flow p st :
  snd (finish_filling_page fetch p st) =
  if below_floor fetch p then Break else Continue.
Proof. body_cases fetch p. Qed.

Lemma finish_filling_index p st :
  index (fst (finish_filling_page fetch p st)) = gather fetch (index st) p.
Proof. body_cases fetch p. Qed.

Lemma finish_filling_requests p :
  requested (page_log (finish_filling_page fetch) p) = [p].
Proof. body_cases fetch p. Qed.

Lemma fill_remaining_log p st :
  log (fst (fill_remaining_page fetch p st)) =
  (log st ++ page_log (fill_remaining_page fetch) p)%list.
Proof. body_cases fetch p. Qed.

Lemma fill_remaining_flow p st :
  snd (fill_remaining_page fetch p st) =
  if never p then Break else Continue.
Proof. body_cases fetch p. Qed.

Lemma fill_remaining_index p st :
  index (fst (fill_remaining_page fetch p st)) = gather fetch (index st) p.
Proof. body_cases fetch p. Qed.

Lemma fill_remaining_requests p :
  requested (page_log (fill_remaining_page fetch) p) = [p].
Proof. body_cases fetch p. Qed.

Lemma fix_names_log p st :
  log (fst (fix_names_page fetch p st)) =
  (log st ++ page_log (fix_names_page fetch) p)%list.
Proof. body_cases fetch p. Qed.

Lemma fix_names_flow p st :
  snd (fix_names_page fetch p st) = if never p then Break else Continue.
Proof. body_cases fetch p. Qed.

Lemma fix_names_index p st :
  index (fst (fix_names_page fetch p st)) = gather fetch (index st) p.
Proof. body_cases fetch p. Qed.

Lemma fix_names_requests p :
  requested (page_log (fix_names_page fetch) p) = [p].
Proof. body_cases fetch p. Qed.

(** With pages whose codes [int] reads, the loop of [fill_missing_ids]
    prints an error for a page only when its request raised. *)
Lemma fill_missing_error p q :
  In (Error q) (page_log (fill_missing_page fetch) p) ->
  q = p /\ fetch p = Raises.
Proof. body_cases fetch p; simpl; intuition congruence. Qed.

(** The error printed in the turn of a page names that page. *)
Lemma finish_filling_error p q :
  In (Error q) (page_log (finish_filling_page fetch) p) -> q = p.
Proof. body_cases fetch p; simpl; intuition congruence. Qed.

Lemma fill_remaining_error p q :
  In (Error q) (page_log (fill_remaining_page fetch) p) -> q = p.
Proof. body_cases fetch p; simpl; intuition congruence. Qed.

Lemma fill_missing_raises p :
  fetch p = Raises ->
  page_log (fill_missing_page fetch) p = [Request p; Error p].
Proof.
  intros H. unfold page_log, fill_missing_page. now rewrite H.
Qed.

Lemma finish_filling_raises p :
  fetch p = Raises ->
  page_log (finish_filling_page fetch) p = [Request p; Error p].
Proof.
  intros H. unfold page_log, finish_filling_page. now rewrite H.
Qed.

Lemma fill_remaining_raises p :
  fetch p = Raises ->
  page_log (fill_remaining_page fetch) p = [Request p; Error p].
Proof.
  intros H. unfold page_log, fill_remaining_page. now rewrite H.
Qed.

Lemma fix_names_raises p :
  fetch p = Raises ->
  page_log (fix_names_page fetch) p = [Request p; Error p].
Proof.
  intros H. unfold page_log, fix_names_page. now rewrite H.
Qed.


Lemma finish_filling_empty p ys :
  fetch p = Body [] ys ->
  In (NoLinks p) (page_log (finish_filling_page fetch) p).
Proof.
  intros Hp. unfold page_log, finish_filling_page, try_apply_and_save.
  rewrite Hp. destruct (_ && _); [destruct (to_csv_raises p)|]; simpl; tauto.
Qed.

Lemma fill_remaining_empty p ys :
  fetch p = Body [] ys ->
  In (NoLinks p) (page_log (fill_remaining_page fetch) p).
Proof.
  intros Hp. unfold page_log, fill_remaining_page, try_apply_and_save.
  rewrite Hp.
  destruct (Nat.eqb _ _); [destruct (to_csv_raises p)|]; simpl; tauto.
Qed.

Lemma finish_filling_stop p m0 ms y ys :
  fetch p = Body (m0 :: ms) (y :: ys) -> min_of y ys < 2012 ->
  page_log (finish_filling_page fetch) p =
  [Request p; Indexed p (S (List.length ms)); Oldest (min_of y ys);
   StopScan (min_of y ys)].
Proof.
  intros H Hlt. unfold page_log, finish_filling_page. rewrite H.
  apply Z.ltb_lt in Hlt. now rewrite Hlt.
Qed.

Lemma finish_filling_skipped p m0 ms :
  fetch p = Body (m0 :: ms) [] ->
  In YearCheckSkipped (page_log (finish_filling_page fetch) p).
Proof.
  intros Hp. unfold page_log, finish_filling_page, try_apply_and_save.
  rewrite Hp. destruct (_ && _); [destruct (to_csv_raises p)|]; simpl; tauto.
Qed.

(** *** The three loops *)

Lemma fill_missing_loop_log (df : DataFrame) :
  log (fill_missing_loop fetch (start df)) =
  flat_map (page_log (fill_missing_page fetch))
    (visited (raises fetch) (seq 0 25)).
Proof.
  unfold fill_missing_loop.
  now rewrite (for_range_log _ (raises fetch) fill_missing_log
                 fill_missing_flow).
Qed.

Lemma fill_missing_loop_requested (df : DataFrame) :
  requested (log (fill_missing_loop fetch (start df))) =
  visited (raises fetch) (seq 0 25).
Proof.
  rewrite fill_missing_loop_log.
  apply requested_pages, fill_missing_requests.
Qed.

Lemma fill_missing_loop_index (st : state) :
  index (fill_missing_loop fetch st) =
  fold_left (gather fetch) (visited (raises fetch) (seq 0 25)) (index st).
Proof.
  apply (for_range_index fetch _ (raises fetch)
           fill_missing_flow fill_missing_index).
Qed.

Lemma fill_missing_loop_frame (pages : list nat) :
  forall st, frame (for_range (fill_missing_page fetch) pages st) = frame st.
Proof.
  induction pages as [|p rest IH]; intros st; simpl; auto.
  pose proof (fill_missing_frame p st) as Hf.
  destruct (fill_missing_page fetch p st) as [st' [|]]; simpl in Hf; auto.
  now rewrite IH.
Qed.

Lemma finish_filling_loop_log (df : DataFrame) :
  log (finish_filling_loop fetch (start df)) =
  flat_map (page_log (finish_filling_page fetch))
    (visited (below_floor fetch) (seq 0 101)).
Proof.
  unfold finish_filling_loop.
  now rewrite (for_range_log _ (below_floor fetch) finish_filling_log
                 finish_filling_flow).
Qed.

Lemma finish_filling_loop_requested (df : DataFrame) :
  requested (log (finish_filling_loop fetch (start df))) =
  visited (below_floor fetch) (seq 0 101).
Proof.
  rewrite finish_filling_loop_log.
  apply requested_pages, finish_filling_requests.
Qed.

Lemma fill_remaining_loop_log (df : DataFrame) :
  log (fill_remaining_loop fetch (start df)) =
  flat_map (page_log (fill_remaining_page fetch)) (seq 100 81).
Proof.
  unfold fill_remaining_loop.
  rewrite (for_range_log _ never fill_remaining_log fill_remaining_flow).
  now rewrite visited_never.
Qed.

Lemma fill_remaining_loop_requested (df : DataFrame) :
  requested (log (fill_remaining_loop fetch (start df))) = seq 100 81.
Proof.
  rewrite fill_remaining_loop_log.
  apply requested_pages, fill_remaining_requests.
Qed.

Lemma fix_names_loop_log (st : state) :
  log (fix_names_loop fetch st) =
  (log st ++ flat_map (page_log (fix_names_page fetch)) (seq 0 61))%list.
Proof.
  unfold fix_names_loop.
  rewrite (for_range_log _ never fix_names_log fix_names_flow).
  now rewrite visited_never.
Qed.

Lemma fix_names_loop_requested (st : state) :
  requested (log (fix_names_loop fetch st)) =
  (requested (log st) ++ seq 0 61)%list.
Proof.
  rewrite fix_names_loop_log, requested_app. f_equal.
  apply requested_pages, fix_names_requests.
Qed.

End Bodies.

End CrawlProps.

(** ** The scrape loop of update_data.py *)

Module UpdateProps.

Import Update.

Lemma Qlt_bool_iff (a b : Q) : Qlt_bool a b = true <-> (a < b)%Q.
Proof.
  unfold Qlt_bool. rewrite negb_true_iff. split.
  - intros H. apply Qnot_le_lt. intros Hle.
    apply Qle_bool_iff in Hle. congruence.
  - intros H. destruct (Qle_bool b a) eqn:E; auto.
    apply Qle_bool_iff in E. exfalso. eapply Qlt_not_le; eauto.
Qed.

Lemma scrape_requested_app (l1 l2 : list event) :
  requested (l1 ++ l2) = (requested l1 ++ requested l2)%list.
Proof.
  induction l1 as [|e l1 IH]; simpl; auto.
  destruct e; simpl; now rewrite IH.
Qed.

Section Scrape.

Variable chunk : Type.
Variable year_column : chunk -> option (list (option Q)).
Variable fetch : nat -> scrape chunk.


(** The request of page [p] raises: the loop ends there. *)
Lemma scrape_get_raises (fuel p : nat) (st : state chunk) :
  fetch p = GetRaises ->
  scrape_from year_column fetch (S fuel) p st =
  Some (emit (Error p) (emit (Request p) st)).
Proof. intros H. simpl. now rewrite H. Qed.




(** A table with rows whose greatest year is positive and below 2012:
    the loop ends there. *)
Lemma scrape_reached (fuel p : nat) (st : state chunk) (c : chunk)
  (col : list (option Q)) (mx : Q) :
  fetch p = Table c -> year_column c = Some col ->
  col_max (map fillna0 col) = Some mx ->
  (0 < mx)%Q -> (mx < target_stop_year)%Q ->
  exists st', scrape_from year_column fetch (S fuel) p st = Some st' /\
              requested (log st') = (requested (log st) ++ [p])%list /\
              all_dfs st' = (all_dfs st ++ [c])%list.
Proof.
  intros H Hy Hmx Hpos Hlt. simpl. rewrite H, Hy, Hmx.
  destruct col as [|x col]; [discriminate|]. simpl.
  apply Qlt_bool_iff in Hpos, Hlt. rewrite Hpos, Hlt. simpl.
  eexists. split; [reflexivity|]. simpl.
  rewrite !scrape_requested_app. simpl. now rewrite !app_nil_r.
Qed.

(** A table with rows whose greatest year is not both positive and below
    2012: the loop goes on with the next page. *)
Lemma scrape_goes_on (fuel p : nat) (st : state chunk) (c : chunk)
  (col : list (option Q)) (mx : Q) :
  fetch p = Table c -> year_column c = Some col ->
  col_max (map fillna0 col) = Some mx ->
  ~ ((0 < mx)%Q /\ (mx < target_stop_year)%Q) ->
  exists st', scrape_from year_column fetch (S fuel) p st = scrape_from year_column fetch fuel (S p) st' /\
              requested (log st') = (requested (log st) ++ [p])%list /\
              all_dfs st' = (all_dfs st ++ [c])%list.
Proof.
  intros H Hy Hmx Hno. simpl. rewrite H, Hy, Hmx.
  destruct col as [|x col]; [discriminate|]. simpl.
  destruct (Qlt_bool mx target_stop_year && Qlt_bool 0 mx) eqn:E.
  - exfalso. apply Hno. apply andb_true_iff in E.
    destruct E as [E1 E2]. split; now apply Qlt_bool_iff.
  - eexists. split; [reflexivity|]. simpl.
    rewrite !scrape_requested_app. simpl. now rewrite !app_nil_r.
Qed.

(** Whatever the loop returns, it has requested the page it started at. *)
Lemma scrape_from_requests (fuel : nat) :
  forall (q : nat) (st fin : state chunk),
    scrape_from year_column fetch fuel q st = Some fin ->
    exists l, log fin = (log st ++ Request q :: l)%list.
Proof.
  induction fuel as [|fuel IH]; intros q st fin; simpl; [discriminate|].
  assert (Hret : forall s' : state chunk,
             (exists l, log s' = (log st ++ Request q :: l)%list) ->
             Some s' = Some fin ->
             exists l, log fin = (log st ++ Request q :: l)%list).
  { intros s' Hs [= <-]. exact Hs. }
  assert (Hrec : forall s' : state chunk,
             (exists l, log s' = (log st ++ Request q :: l)%list) ->
             scrape_from year_column fetch fuel (S q) s' = Some fin ->
             exists l, log fin = (log st ++ Request q :: l)%list).
  { intros s' [l Hl] Hf. apply IH in Hf. destruct Hf as [l' Hl'].
    rewrite Hl', Hl, <- app_assoc. simpl. eauto. }
  destruct (fetch q) as [| |c].
  - apply Hret. simpl. rewrite <- app_assoc. simpl. eauto.
  - apply Hret. simpl. rewrite <- app_assoc. simpl. eauto.
  - destruct (year_column c) as [col|].
    + destruct (py_int (col_min (map fillna0 col))) as [lo|];
        [|apply Hret; simpl; rewrite <- app_assoc; simpl; eauto].
      destruct (py_int (col_max (map fillna0 col))) as [hi|];
        [|apply Hret; simpl; rewrite <- app_assoc; simpl; eauto].
      destruct (col_max (map fillna0 col)) as [mx|];
        [|apply Hret; simpl; rewrite <- app_assoc; simpl; eauto].
      destruct (Nat.eqb _ 0);
        [apply Hret; simpl; rewrite <- app_assoc; simpl; eauto|].
      destruct (_ && _).
      * apply Hret. simpl. rewrite <- !app_assoc. simpl. eauto.
      * apply Hrec. simpl. rewrite <- !app_assoc. simpl. eauto.
    + apply Hrec. simpl. rewrite <- !app_assoc. simpl. eauto.
Qed.

Lemma scrape_from_next (fuel q : nat) (st fin : state chunk) :
  scrape_from year_column fetch fuel q st = Some fin -> In q (requested (log fin)).
Proof.
  intros H. apply scrape_from_requests in H. destruct H as [l ->].
  rewrite scrape_requested_app. apply in_or_app. right. simpl. now left.
Qed.

End Scrape.

End UpdateProps.

(** ** Stop conditions and failures of the crawls *)




(** A table without a year column does not end the scrape: page 0 is
    skipped and page 1 is requested. *)
Lemma no_year_column_goes_on :
  option_map (fun st => Update.log st)
    (Update.get_latest_meteorites (fun c => c) no_year_then_end 2)
  = Some [Update.Request 0; Update.YearMissing; Update.Request 1;
          Update.NoTableFound].
Proof. reflexivity. Qed.

(** C5 (as the code has it). When the request of a page raises, the
    failure is logged. [finish_filling_ids], [fill_remaining_ids] and
    [fix_names_and_fetch_ids] then go on to the next page of the range
    and request no page twice.
    [fill_missing_ids] and [get_latest_meteorites] end their loop at that
    page; [fill_missing_ids] still applies and saves what it gathered. *)
Theorem fetch_failure_policy `{Pf : Platform} :
  (forall (fetch : nat -> Crawl.response) (p : nat) (df : DataFrame),
      fetch p = Crawl.Raises ->
      (let t := Crawl.log (Crawl.finish_filling_loop fetch (Crawl.start df)) in
       NoDup (Crawl.requested t) /\
       (In p (Crawl.requested t) ->
        In (Crawl.Error p) t /\
        ((p < 100)%nat -> In (S p) (Crawl.requested t)))) /\
      (let t := Crawl.log (Crawl.fill_remaining_loop fetch (Crawl.start df)) in
       Crawl.requested t = seq 100 81 /\
       ((100 <= p <= 180)%nat -> In (Crawl.Error p) t)) /\
      (let t := Crawl.log (Crawl.fix_names_loop fetch (Crawl.start df)) in
       Crawl.requested t = seq 0 61 /\
       ((p <= 60)%nat -> In (Crawl.Error p) t)) /\
      (let t := Crawl.log (Crawl.fill_missing_loop fetch (Crawl.start df)) in
       In p (Crawl.requested t) ->
       In (Crawl.Error p) t /\
       (forall q, In q (Crawl.requested t) -> (q <= p)%nat)) /\
      (missing_count df <> 0%nat ->
       Crawl.file (Crawl.fill_missing_ids fetch (Some df)) =
       Some (apply_ids
               (Crawl.index (Crawl.fill_missing_loop fetch (Crawl.start df)))
               df))) /\
  (forall (chunk : Type) (year_column : chunk -> option (list (option Q)))
          (fetch : nat -> Update.scrape chunk) (fuel p : nat)
          (st : Update.state chunk),
      fetch p = Update.GetRaises ->
      Update.scrape_from year_column fetch (S fuel) p st =
      Some (Update.emit (Update.Error p) (Update.emit (Update.Request p) st))).
Proof.
  split.
  - intros fetch p df Hp. split; [|split; [|split; [|split]]].
    + intros t. subst t. rewrite CrawlProps.finish_filling_loop_requested,
        CrawlProps.finish_filling_loop_log.
      split; [apply CrawlProps.visited_NoDup, seq_NoDup|].
      intros Hin. split.
      * apply in_flat_map. exists p. split; auto.
        rewrite (CrawlProps.finish_filling_raises fetch p Hp). simpl. tauto.
      * intros Hlt. apply CrawlProps.visited_next; auto; [|simpl; lia].
        unfold below_floor. now rewrite Hp.
    + intros t. subst t. rewrite CrawlProps.fill_remaining_loop_requested,
        CrawlProps.fill_remaining_loop_log.
      split; [reflexivity|]. intros Hr.
      apply in_flat_map. exists p. split; [apply in_seq; lia|].
      rewrite (CrawlProps.fill_remaining_raises fetch p Hp). simpl. tauto.
    + intros t. subst t. rewrite CrawlProps.fix_names_loop_requested,
        CrawlProps.fix_names_loop_log.
      split; [reflexivity|]. intros Hr. apply in_or_app. right.
      apply in_flat_map. exists p. split; [apply in_seq; lia|].
      rewrite (CrawlProps.fix_names_raises fetch p Hp). simpl. tauto.
    + intros t. subst t. rewrite CrawlProps.fill_missing_loop_requested,
        CrawlProps.fill_missing_loop_log.
      intros Hin. split.
      * apply in_flat_map. exists p. split; auto.
        rewrite (CrawlProps.fill_missing_raises fetch p Hp). simpl. tauto.
      * intros q Hq. eapply CrawlProps.visited_last; eauto.
        unfold raises. now rewrite Hp.
    + intros Hm. unfold Crawl.fill_missing_ids.
      apply Nat.eqb_neq in Hm. rewrite Hm.
      rewrite CrawlProps.file_checkpoint. unfold Crawl.fill_missing_loop.
      now rewrite CrawlProps.fill_missing_loop_frame.
  - intros chunk year_column fetch fuel p st.
    apply UpdateProps.scrape_get_raises.
Qed.

Lemma fetch_failure_policy_witness :
  let fetch := fun page => match page with
                           | 100%nat => Crawl.Raises
                           | _ => Crawl.Body nwa_page []
                           end in
  fetch 100%nat = Crawl.Raises /\
  In (Crawl.Error 100)
     (Crawl.log (Crawl.fill_remaining_loop fetch (Crawl.start nwa_frame))).
Proof.
  split; [reflexivity|].
  destruct (proj1 fetch_failure_policy
              (fun page => match page with
                           | 100%nat => Crawl.Raises
                           | _ => Crawl.Body nwa_page []
                           end)
              100%nat nwa_frame eq_refl) as (_ & (_ & H) & _ & _).
  apply H. split; [apply le_n|]. apply Nat.leb_le. reflexivity.
Defined.

(** C5 as stated fails in [fill_missing_ids]: the request of page 0
    raises and no further page is requested, although page 1 holds the
    record looked for; its id stays 0. *)
Lemma fetch_failure_stops_first_scan :
  down_at_first 0 = Crawl.Raises /\
  Crawl.log (Crawl.fill_missing_ids down_at_first (Some nwa_frame))
    = [Crawl.Request 0; Crawl.Error 0; Crawl.Save] /\
  Crawl.requested (Crawl.log (Crawl.fill_missing_ids down_at_first (Some nwa_frame)))
    = [0%nat] /\
  Crawl.file (Crawl.fill_missing_ids down_at_first (Some nwa_frame))
    = Some nwa_frame.
Proof. repeat split. Qed.

(** C6 (as the code has it). In [finish_filling_ids], for a requested
    page with at least one extracted record: when the least year token is
    below 2012 the loop stops after that page; when there is no year
    token the check is skipped and the next page is requested (as it is
    when the least token is 2012 or more). [fill_remaining_ids] and
    [fill_missing_ids] have no year floor: the first requests its whole
    range, the second too unless a request raises. In
    [get_latest_meteorites] the test is on the greatest year of the page:
    the loop ends after a page whose greatest year is positive and below
    2012, and goes on to the next page otherwise, whatever the least
    year. *)
Theorem year_floor_policy `{Pf : Platform} :
  (forall (fetch : nat -> Crawl.response) (p : nat) (m0 : Z * string)
          (ms : list (Z * string)) (years : list Z) (df : DataFrame),
      fetch p = Crawl.Body (m0 :: ms) years ->
      let t := Crawl.log (Crawl.finish_filling_loop fetch (Crawl.start df)) in
      In p (Crawl.requested t) ->
      (forall y ys, years = y :: ys -> Crawl.min_of y ys < 2012 ->
         In (Crawl.StopScan (Crawl.min_of y ys)) t /\
         (forall q, In q (Crawl.requested t) -> (q <= p)%nat)) /\
      (forall y ys, years = y :: ys -> 2012 <= Crawl.min_of y ys ->
         (p < 100)%nat -> In (S p) (Crawl.requested t)) /\
      (years = [] ->
         In Crawl.YearCheckSkipped t /\
         ((p < 100)%nat -> In (S p) (Crawl.requested t)))) /\
  (forall (fetch : nat -> Crawl.response) (df : DataFrame),
      Crawl.requested
        (Crawl.log (Crawl.fill_remaining_loop fetch (Crawl.start df)))
      = seq 100 81 /\
      ((forall p, fetch p <> Crawl.Raises) ->
       Crawl.requested
         (Crawl.log (Crawl.fill_missing_loop fetch (Crawl.start df)))
       = seq 0 25)) /\
  (forall (chunk : Type) (year_column : chunk -> option (list (option Q)))
          (fetch : nat -> Update.scrape chunk) (fuel p : nat)
          (st : Update.state chunk) (c : chunk) (col : list (option Q))
          (mx : Q),
      fetch p = Update.Table c -> year_column c = Some col ->
      Update.col_max (map Update.fillna0 col) = Some mx ->
      ((0 < mx)%Q -> (mx < Update.target_stop_year)%Q ->
       exists st',
         Update.scrape_from year_column fetch (S fuel) p st = Some st' /\
         Update.requested (Update.log st') =
         (Update.requested (Update.log st) ++ [p])%list) /\
      (~ ((0 < mx)%Q /\ (mx < Update.target_stop_year)%Q) ->
       (exists st',
          Update.scrape_from year_column fetch (S fuel) p st =
          Update.scrape_from year_column fetch fuel (S p) st' /\
          Update.requested (Update.log st') =
          (Update.requested (Update.log st) ++ [p])%list) /\
       (forall fin,
          Update.scrape_from year_column fetch (S fuel) p st = Some fin ->
          In (S p) (Update.requested (Update.log fin))))).
Proof.
  split; [|split].
  - intros fetch p m0 ms years df Hp t. subst t.
    rewrite CrawlProps.finish_filling_loop_requested,
      CrawlProps.finish_filling_loop_log.
    intros Hin. split; [|split].
    + intros y ys -> Hlt. split.
      * apply in_flat_map. exists p. split; auto.
        rewrite (CrawlProps.finish_filling_stop fetch p m0 ms y ys Hp Hlt).
        simpl. tauto.
      * intros q Hq. eapply CrawlProps.visited_last; eauto.
        unfold below_floor. rewrite Hp. now apply Z.ltb_lt.
    + intros y ys -> Hge Hlt.
      apply CrawlProps.visited_next; auto; [|simpl; lia].
      unfold below_floor. rewrite Hp. apply Z.ltb_ge. lia.
    + intros ->. split.
      * apply in_flat_map. exists p. split; auto.
        apply (CrawlProps.finish_filling_skipped fetch p m0 ms Hp).
      * intros Hlt. apply CrawlProps.visited_next; auto; [|simpl; lia].
        unfold below_floor. now rewrite Hp.
  - intros fetch df. split.
    + apply CrawlProps.fill_remaining_loop_requested.
    + intros Hno. rewrite CrawlProps.fill_missing_loop_requested.
      apply CrawlProps.visited_all. intros p _. unfold raises.
      specialize (Hno p). now destruct (fetch p).
  - intros chunk year_column fetch fuel p st c col mx Hp Hy Hmx. split.
    + intros Hpos Hlt.
      destruct (UpdateProps.scrape_reached chunk year_column fetch fuel p st
                  c col mx Hp Hy Hmx Hpos Hlt) as (st' & H1 & H2 & _).
      eauto.
    + intros Hno.
      destruct (UpdateProps.scrape_goes_on chunk year_column fetch fuel p st
                  c col mx Hp Hy Hmx Hno) as (st' & H1 & H2 & _).
      split; [eauto|].
      intros fin Hfin. rewrite H1 in Hfin.
      eapply UpdateProps.scrape_from_next; eauto.
Qed.

Lemma year_floor_policy_witness :
  old_at_first 0 = Crawl.Body nwa_page [2011] /\
  forall q,
    In q (Crawl.requested
            (Crawl.log (Crawl.finish_filling_loop old_at_first
                          (Crawl.start nwa_frame)))) ->
    (q <= 0)%nat.
Proof.
  split; [reflexivity|].
  refine (proj2 (proj1 (proj1 year_floor_policy old_at_first 0%nat
                          (1234, "NWA 869") [] [2011] nwa_frame eq_refl _)
                   2011 [] eq_refl _)).
  - left. reflexivity.
  - reflexivity.
Defined.

(** C6 as stated fails in [get_latest_meteorites]: page 0 holds the years
    2015 and 2010, its least year 2010 is below 2012, and page 1 is
    requested all the same. It fails in [fill_remaining_ids] too: every
    page has a record and the year token 1999, and all the pages 100 to
    180 are requested. *)
Lemma least_year_below_floor_goes_on :
  Crawl.requested
    (Crawl.log (Crawl.fill_remaining_ids old_everywhere (Some nwa_frame)))
    = seq 100 81 /\
  Update.col_min (map Update.fillna0 [Some (2015 # 1); Some (2010 # 1)])
    = Some (2010 # 1) /\
  Update.Qlt_bool (2010 # 1) Update.target_stop_year = true /\
  option_map (fun st => Update.requested (Update.log st))
    (Update.get_latest_meteorites (fun c => Some c) mixed_years 2)
    = Some [0%nat; 1%nat].
Proof. repeat split. Qed.

(** A save that fails in the middle of [finish_filling_ids]: the disk is
    full when page 10 is saved. Page 10 answered and is indexed, its
    error is printed all the same, the ids are assigned in the frame, no
    file is written, and page 11 is requested. *)
Lemma failed_save_is_reported :
  let body := @Crawl.finish_filling_page full_disk nwa_everywhere in
  let st := Crawl.for_range body (seq 0 12) (Crawl.start nwa_frame) in
  page_log body 10
  = [Crawl.Request 10; Crawl.Indexed 10 1; Crawl.YearCheckSkipped;
     Crawl.Error 10] /\
  Crawl.requested (Crawl.log st) = seq 0 12 /\
  Crawl.frame st = [bare (Some "NWA 869") (Some 1234) None] /\
  Crawl.file st = None.
Proof. repeat split. Qed.

(** ** The merge *)

Module MergeProps.

Import Update.

Lemma name_cmp_refl (a : option string) : name_cmp a a = Eq.
Proof.
  destruct a as [x|]; simpl; auto. now apply String_as_OT.cmp_eq.
Qed.

Lemma name_cmp_eq (a b : option string) : name_cmp a b = Eq -> a = b.
Proof.
  destruct a as [x|], b as [y|]; simpl; try discriminate; auto.
  intros H. apply String_as_OT.cmp_eq in H. now subst.
Qed.

Lemma name_cmp_antisym (a b : option string) :
  name_cmp b a = CompOpp (name_cmp a b).
Proof.
  destruct a as [x|], b as [y|]; simpl; auto.
  apply String_as_OT.cmp_antisym.
Qed.

Lemma name_cmp_lt_trans (a b c : option string) :
  name_cmp a b = Lt -> name_cmp b c = Lt -> name_cmp a c = Lt.
Proof.
  destruct a as [x|], b as [y|], c as [z|]; simpl; try discriminate; auto.
  intros H1 H2. apply String_as_OT.cmp_lt in H1, H2.
  apply String_as_OT.cmp_lt. eapply String_as_OT.lt_trans; eauto.
Qed.

Lemma name_eqb_eq (a b : option string) : name_eqb a b = true <-> a = b.
Proof.
  destruct a as [x|], b as [y|]; simpl; split; try discriminate; auto.
  - intros H. apply String.eqb_eq in H. now subst.
  - intros [= ->]. apply String.eqb_refl.
Qed.

Lemma lat_cmp_antisym (a b : option Q) :
  lat_cmp b a = CompOpp (lat_cmp a b).
Proof.
  destruct a as [x|], b as [y|]; simpl; auto.
  symmetry. apply Qcompare_antisym.
Qed.

Lemma lat_cmp_trans (a b c : option Q) :
  lat_cmp a b <> Gt -> lat_cmp b c <> Gt -> lat_cmp a c <> Gt.
Proof.
  destruct a as [x|], b as [y|], c as [z|]; simpl; try congruence.
  intros H1 H2. apply Qle_alt in H1, H2. apply Qle_alt.
  eapply Qle_trans; eauto.
Qed.

(** A located row never sorts after an unlocated one of the same name. *)
Lemma lat_cmp_located (a b : option Q) :
  lat_cmp a b <> Gt -> b <> None -> a <> None.
Proof. destruct a, b; simpl; congruence. Qed.

Lemma row_leb_spec (a b : row) :
  row_le a b <->
  name_cmp (name a) (name b) = Lt \/
  (name a = name b /\ lat_cmp (reclat a) (reclat b) <> Gt).
Proof.
  unfold row_le, row_leb.
  destruct (name_cmp (name a) (name b)) eqn:E.
  - apply name_cmp_eq in E.
    destruct (lat_cmp (reclat a) (reclat b)); split; intros H;
      try discriminate; auto; try (right; split; [auto|discriminate]);
      destruct H as [H|[_ H]]; congruence.
  - split; auto.
  - split; [discriminate|]. intros [H|[H _]]; [discriminate|].
    rewrite H, name_cmp_refl in E. discriminate.
Qed.

Lemma row_le_total (a b : row) : Update.row_leb a b = false -> row_le b a.
Proof.
  unfold row_le, row_leb.
  rewrite (name_cmp_antisym (name a) (name b)),
    (lat_cmp_antisym (reclat a) (reclat b)).
  destruct (name_cmp (name a) (name b)); simpl; try discriminate; auto.
  destruct (lat_cmp (reclat a) (reclat b)); simpl; try discriminate; auto.
Qed.

Lemma row_le_trans (a b c : row) : row_le a b -> row_le b c -> row_le a c.
Proof.
  rewrite !row_leb_spec.
  intros [H1|[H1 L1]] [H2|[H2 L2]].
  - left. eapply name_cmp_lt_trans; eauto.
  - left. now rewrite <- H2.
  - left. now rewrite H1.
  - right. split; [congruence|]. eapply lat_cmp_trans; eauto.
Qed.

(** *** Sorting *)

Lemma insert_perm (r : row) (l : DataFrame) : Permutation (insert r l) (r :: l).
Proof.
  induction l as [|x t IH]; simpl; auto.
  destruct (row_leb r x); auto.
  rewrite IH. apply perm_swap.
Qed.

Lemma sort_values_perm (l : DataFrame) : Permutation (sort_values l) l.
Proof.
  induction l as [|r l IH]; simpl; auto.
  rewrite insert_perm. now constructor.
Qed.

Lemma insert_sorted (r : row) (l : DataFrame) :
  StronglySorted row_le l -> StronglySorted row_le (insert r l).
Proof.
  induction 1 as [|x t Hs IH Hall]; simpl.
  - repeat constructor.
  - destruct (row_leb r x) eqn:E.
    + constructor; [now constructor|].
      constructor; [exact E|].
      eapply Forall_impl; [|exact Hall].
      intros y Hy. eapply row_le_trans; eauto.
    + constructor; [exact IH|].
      apply row_le_total in E.
      eapply Permutation_Forall; [symmetry; apply insert_perm|].
      constructor; auto.
Qed.

Lemma sort_values_sorted (l : DataFrame) : StronglySorted row_le (sort_values l).
Proof.
  induction l as [|r l IH]; simpl; [constructor|]. now apply insert_sorted.
Qed.

Lemma sorted_suffix (l1 l2 : DataFrame) :
  StronglySorted row_le (l1 ++ l2) -> StronglySorted row_le l2.
Proof.
  induction l1 as [|x l1 IH]; simpl; auto.
  intros H. apply StronglySorted_inv in H. tauto.
Qed.

(** *** Dropping duplicates *)

Lemma seen_spec (seen : list (option string)) (n : option string) :
  existsb (name_eqb n) seen = true <-> In n seen.
Proof.
  rewrite existsb_exists. split.
  - intros [x [Hx He]]. apply name_eqb_eq in He. now subst.
  - intros H. exists n. split; auto. now apply name_eqb_eq.
Qed.

Lemma drop_duplicates_first (l : DataFrame) :
  forall seen r,
    In r (drop_duplicates_from seen l) ->
    ~ In (name r) seen /\
    exists l1 l2, l = (l1 ++ r :: l2)%list /\
                  forall x, In x l1 -> name x <> name r.
Proof.
  induction l as [|x t IH]; intros seen r; simpl; [tauto|].
  destruct (existsb (name_eqb (name x)) seen) eqn:E.
  - intros H. apply IH in H. destruct H as [Hs (l1 & l2 & -> & Hl1)].
    split; auto. exists (x :: l1), l2. split; auto.
    intros y [<-|Hy]; auto.
    intros Heq. apply Hs. rewrite <- Heq. now apply seen_spec.
  - intros [<-|H].
    + split.
      * intros Hin. apply seen_spec in Hin. congruence.
      * exists [], t. split; [reflexivity | intros y []].
    + apply IH in H. destruct H as [Hs (l1 & l2 & -> & Hl1)].
      split; [intros Hin; apply Hs; now right|].
      exists (x :: l1), l2. split; auto.
      intros y [<-|Hy]; auto.
      intros Heq. apply Hs. left. exact Heq.
Qed.

Lemma drop_duplicates_NoDup (l : DataFrame) :
  forall seen, NoDup (map name (drop_duplicates_from seen l)).
Proof.
  induction l as [|x t IH]; intros seen; simpl; [constructor|].
  destruct (existsb (name_eqb (name x)) seen); auto.
  simpl. constructor; auto.
  intros Hin. apply in_map_iff in Hin. destruct Hin as [y [Hn Hy]].
  apply drop_duplicates_first in Hy. destruct Hy as [Hs _].
  apply Hs. left. auto.
Qed.

Lemma drop_duplicates_complete (l : DataFrame) :
  forall seen r,
    In r l -> ~ In (name r) seen ->
    exists r', In r' (drop_duplicates_from seen l) /\ name r' = name r.
Proof.
  induction l as [|x t IH]; intros seen r; simpl; [tauto|].
  intros [<-|Hin] Hs.
  - destruct (existsb (name_eqb (name x)) seen) eqn:E.
    + apply seen_spec in E. contradiction.
    + exists x. split; auto. now left.
  - destruct (existsb (name_eqb (name x)) seen) eqn:E; auto.
    destruct (name_eqb (name x) (name r)) eqn:En.
    + apply name_eqb_eq in En. exists x. split; auto. now left.
    + destruct (IH (name x :: seen) r Hin) as [r' [H1 H2]].
      * intros [H|H]; auto.
        assert (name_eqb (name x) (name r) = true) by now apply name_eqb_eq.
        congruence.
      * exists r'. split; auto. now right.
Qed.

(** *** Deduplication: the survivor of a name *)

Section Deduplicate.

Variable df : DataFrame.

Lemma deduplicate_names : NoDup (map name (deduplicate df)).
Proof. apply drop_duplicates_NoDup. Qed.

Lemma deduplicate_In (r : row) : In r (deduplicate df) -> In r df.
Proof.
  intros H. apply drop_duplicates_first in H.
  destruct H as [_ (l1 & l2 & Hl & _)].
  eapply Permutation_in; [apply sort_values_perm|].
  rewrite Hl. apply in_or_app. right. now left.
Qed.

Lemma deduplicate_complete (r : row) :
  In r df -> exists r', In r' (deduplicate df) /\ name r' = name r.
Proof.
  intros H. apply drop_duplicates_complete; [|simpl; tauto].
  eapply Permutation_in; [symmetry; apply sort_values_perm|exact H].
Qed.

Lemma deduplicate_located (r r' : row) :
  In r df -> reclat r <> None ->
  In r' (deduplicate df) -> name r' = name r -> reclat r' <> None.
Proof.
  intros Hin Hlat Hin' Hname.
  apply drop_duplicates_first in Hin'.
  destruct Hin' as [_ (l1 & l2 & Hl & Hfirst)].
  pose proof (sort_values_sorted df) as Hs. rewrite Hl in Hs.
  apply sorted_suffix, StronglySorted_inv in Hs. destruct Hs as [_ Hall].
  assert (Hr : In r (l1 ++ r' :: l2)).
  { rewrite <- Hl. eapply Permutation_in;
      [symmetry; apply sort_values_perm|exact Hin]. }
  apply in_app_or in Hr. destruct Hr as [Hr|[Hr|Hr]].
  - exfalso. apply (Hfirst r Hr). congruence.
  - now subst.
  - rewrite Forall_forall in Hall. apply Hall in Hr.
    apply row_leb_spec in Hr. destruct Hr as [Hr|[_ Hr]].
    + rewrite Hname, name_cmp_refl in Hr. discriminate.
    + eapply lat_cmp_located; eauto.
Qed.

End Deduplicate.

End MergeProps.

(** C7. The merge of a base and an incremental snapshot keeps, out of
    their concatenation, exactly one record per distinct name; when a
    record of that name has a latitude, so has the survivor. For two
    records named "Hoba", one without latitude and one with latitude
    -19.58 (or any other), the merge is the located record alone, in
    whichever snapshot it comes. *)
Theorem merge_survivorship (df_base df_new : DataFrame) :
  let merged := Update.merge df_base df_new in
  NoDup (map name merged) /\
  (forall r, In r merged -> In r (df_base ++ df_new)%list) /\
  (forall r, In r (df_base ++ df_new)%list ->
             exists r', In r' merged /\ name r' = name r) /\
  (forall r r', In r (df_base ++ df_new)%list -> reclat r <> None ->
                In r' merged -> name r' = name r -> reclat r' <> None) /\
  (forall a b lat,
      name a = Some "Hoba" -> name b = Some "Hoba" ->
      reclat a = None -> reclat b = Some lat ->
      Update.merge [a] [b] = [b] /\ Update.merge [b] [a] = [b]).
Proof.
  intros merged. subst merged. unfold Update.merge.
  split; [apply MergeProps.deduplicate_names|].
  split; [apply MergeProps.deduplicate_In|].
  split; [apply MergeProps.deduplicate_complete|].
  split; [apply MergeProps.deduplicate_located|].
  intros a b lat Na Nb La Lb.
  unfold Update.deduplicate, Update.drop_duplicates, Update.sort_values.
  simpl. unfold Update.row_leb. rewrite Na, Nb, La, Lb. simpl.
  rewrite Na, Nb. simpl. split; reflexivity.
Qed.

Lemma merge_survivorship_witness :
  let bare_hoba := bare (Some "Hoba") (Some 11) None in
  let located_hoba := bare (Some "Hoba") None (Some (-1958 # 100)) in
  Update.merge [bare_hoba] [located_hoba] = [located_hoba] /\
  Update.merge [located_hoba] [bare_hoba] = [located_hoba].
Proof.
  exact (proj2 (proj2 (proj2 (proj2 (merge_survivorship [] []))))
           (bare (Some "Hoba") (Some 11) None)
           (bare (Some "Hoba") None (Some (-1958 # 100)))
           (-1958 # 100)%Q eq_refl eq_refl eq_refl eq_refl).
Defined.

(** ** Whole sessions *)

Module SessionProps.

Import Crawl CrawlProps.

Lemma backfilled_refl `{Pf : Platform} (df : DataFrame) : backfilled df df.
Proof. now exists []. Qed.

Lemma backfilled_step `{Pf : Platform} (m : dict) (df : DataFrame) :
  backfilled df (apply_ids m df).
Proof. now exists [m]. Qed.

Lemma backfilled_trans `{Pf : Platform} (d1 d2 d3 : DataFrame) :
  backfilled d1 d2 -> backfilled d2 d3 -> backfilled d1 d3.
Proof.
  intros [l1 ->] [l2 ->]. exists (l1 ++ l2)%list. now rewrite fold_left_app.
Qed.

(** Finishes a goal about the frame after a loop body. *)
Ltac frame_cases fetch p :=
  body_cases fetch p;
  rewrite ?frame_checkpoint; autorewrite with crawl;
  first [apply backfilled_refl | apply backfilled_step].

Section Sessions.

Context `{Pf : Platform}.
Variable fetch : nat -> response.

Lemma fill_missing_backfilled p st :
  backfilled (frame st) (frame (fst (fill_missing_page fetch p st))).
Proof. frame_cases fetch p. Qed.

Lemma finish_filling_backfilled p st :
  backfilled (frame st) (frame (fst (finish_filling_page fetch p st))).
Proof. frame_cases fetch p. Qed.

Lemma fill_remaining_backfilled p st :
  backfilled (frame st) (frame (fst (fill_remaining_page fetch p st))).
Proof. frame_cases fetch p. Qed.

Lemma fix_names_backfilled p st :
  backfilled (frame st) (frame (fst (fix_names_page fetch p st))).
Proof. frame_cases fetch p. Qed.

Lemma for_range_backfilled (body : nat -> state -> state * flow) :
  (forall p st, backfilled (frame st) (frame (fst (body p st)))) ->
  forall pages st, backfilled (frame st) (frame (for_range body pages st)).
Proof.
  intros Hbody pages. induction pages as [|p rest IH]; intros st; simpl.
  - apply backfilled_refl.
  - pose proof (Hbody p st) as Hp.
    destruct (body p st) as [st' [|]]; simpl in Hp; auto.
    eapply backfilled_trans; eauto.
Qed.

Lemma checkpoint_backfilled (st : state) :
  backfilled (frame st) (frame (checkpoint st)).
Proof. rewrite frame_checkpoint. apply backfilled_step. Qed.

(** Whatever the pages give and wherever the crawl stops, the frame a
    session ends with comes from the one it loaded by apply steps only. *)
Lemma sessions_backfilled (df : DataFrame) :
  backfilled df (frame (fill_missing_ids fetch (Some df))) /\
  backfilled df (frame (finish_filling_ids fetch (Some df))) /\
  backfilled df (frame (fill_remaining_ids fetch (Some df))) /\
  backfilled (clean_names df) (frame (fix_names_and_fetch_ids fetch (Some df))).
Proof.
  unfold fill_missing_ids, finish_filling_ids, fill_remaining_ids,
    fix_names_and_fetch_ids.
  repeat split.
  - destruct (Nat.eqb _ 0); [apply backfilled_refl|].
    eapply backfilled_trans; [|apply checkpoint_backfilled].
    apply (for_range_backfilled _ fill_missing_backfilled _ (start df)).
  - destruct (Nat.eqb _ 0); [apply backfilled_refl|].
    eapply backfilled_trans; [|apply checkpoint_backfilled].
    apply (for_range_backfilled _ finish_filling_backfilled _ (start df)).
  - destruct (Nat.eqb _ 0); [apply backfilled_refl|].
    eapply backfilled_trans; [|apply checkpoint_backfilled].
    apply (for_range_backfilled _ fill_remaining_backfilled _ (start df)).
  - destruct (Nat.eqb _ 0); [apply backfilled_refl|].
    eapply backfilled_trans; [|apply checkpoint_backfilled].
    apply (for_range_backfilled _ fix_names_backfilled _
             (save (start (clean_names df)))).
Qed.

End Sessions.

Lemma same_but_id_trans (a b c : row) :
  same_but_id a b -> same_but_id b c -> same_but_id a c.
Proof. unfold same_but_id. intuition congruence. Qed.

(** A succession of apply steps never replaces a resolved id. *)
Lemma backfilled_resolved `{Pf : Platform} (df df' : DataFrame) (i : nat) (r : row) (v : Z) :
  backfilled df df' ->
  nth_error df i = Some r -> id r = Some v -> v <> 0 ->
  exists r', nth_error df' i = Some r' /\ id r' = Some v.
Proof.
  intros [indexes ->] Hi Hid Hv. revert df r Hi Hid.
  induction indexes as [|m rest IH]; intros df r Hi Hid; simpl; eauto.
  destruct (apply_ids_resolved m df i r v Hi Hid Hv) as [r' [Hi' Hid']].
  eapply IH; eauto.
Qed.

(** A succession of apply steps changes the [id] column only. *)
Lemma backfilled_frame `{Pf : Platform} (df df' : DataFrame) :
  backfilled df df' -> Forall2 same_but_id df df'.
Proof.
  intros [indexes ->]. revert df.
  induction indexes as [|m rest IH]; intros df; simpl.
  - induction df; constructor; auto. unfold same_but_id. tauto.
  - pose proof (apply_ids_frame m df) as H1.
    pose proof (IH (apply_ids m df)) as H2.
    revert H1 H2. generalize (apply_ids m df) as d2.
    generalize (fold_left (fun d m0 => apply_ids m0 d) rest) as f.
    intros f d2 H1. generalize (f d2) as d3. clear f.
    induction H1 as [|a b l1 l2 Hab Hl IHl]; intros d3 H2;
      inversion H2; subst; constructor.
    + eapply same_but_id_trans; eauto.
    + now apply IHl.
Qed.

(** Through a whole session of [finish_filling_ids] or
    [fill_remaining_ids], intermediate saves included, a record loaded
    with a resolved id ends with that id, for every behaviour of the
    remote pages. *)
Lemma sessions_never_overwrite `{Pf : Platform} (fetch : nat -> response) (df : DataFrame)
  (i : nat) (r : row) (v : Z) :
  nth_error df i = Some r -> id r = Some v -> v <> 0 ->
  (exists r', nth_error (frame (finish_filling_ids fetch (Some df))) i = Some r'
              /\ id r' = Some v) /\
  (exists r', nth_error (frame (fill_remaining_ids fetch (Some df))) i = Some r'
              /\ id r' = Some v) /\
  (exists r', nth_error (frame (fill_missing_ids fetch (Some df))) i = Some r'
              /\ id r' = Some v).
Proof.
  intros Hi Hid Hv.
  destruct (sessions_backfilled fetch df) as (H1 & H2 & H3 & _).
  repeat split; eapply backfilled_resolved; eauto.
Qed.

End SessionProps.

(** ** More on names and strings *)

Module StringFacts.

Lemma is_space_lower_char (c : ascii) : is_space (lower_char c) = is_space c.
Proof. destruct c as [[] [] [] [] [] [] [] []]; reflexivity. Qed.

Lemma lower_char_idempotent (c : ascii) :
  lower_char (lower_char c) = lower_char c.
Proof. destruct c as [[] [] [] [] [] [] [] []]; reflexivity. Qed.

Lemma lower_idempotent (s : string) : lower (lower s) = lower s.
Proof.
  induction s as [|c t IH]; simpl; auto.
  now rewrite lower_char_idempotent, IH.
Qed.

Lemma lstrip_lower (s : string) : lstrip (lower s) = lower (lstrip s).
Proof.
  induction s as [|c t IH]; simpl; auto.
  rewrite is_space_lower_char. now destruct (is_space c).
Qed.

Lemma rstrip_lower (s : string) : rstrip (lower s) = lower (rstrip s).
Proof.
  induction s as [|c t IH]; simpl; auto.
  rewrite IH, is_space_lower_char.
  destruct (rstrip t); simpl; auto. now destruct (is_space c).
Qed.

Lemma strip_lower (s : string) : strip (lower s) = lower (strip s).
Proof. unfold strip. now rewrite lstrip_lower, rstrip_lower. Qed.

Lemma lstrip_head (s : string) :
  match lstrip s with
  | EmptyString => True
  | String c _ => is_space c = false
  end.
Proof.
  induction s as [|c t IH]; simpl; auto.
  destruct (is_space c) eqn:E; simpl; auto.
Qed.

Lemma lstrip_clean (s : string) :
  match s with
  | EmptyString => True
  | String c _ => is_space c = false
  end -> lstrip s = s.
Proof. destruct s as [|c t]; simpl; auto. now intros ->. Qed.

Lemma rstrip_head (s : string) :
  match s with
  | EmptyString => True
  | String c _ => is_space c = false
  end ->
  match rstrip s with
  | EmptyString => s = EmptyString
  | String c' _ => is_space c' = false
  end.
Proof.
  destruct s as [|c t]; simpl; auto. intros Hc.
  destruct (rstrip t); [rewrite Hc|]; exact Hc.
Qed.

Lemma rstrip_idempotent (s : string) : rstrip (rstrip s) = rstrip s.
Proof.
  induction s as [|c t IH]; simpl; auto.
  destruct (rstrip t) as [|c' t'] eqn:E.
  - destruct (is_space c) eqn:Ec; simpl; auto. now rewrite Ec.
  - simpl in IH. simpl. destruct (rstrip t') as [|c'' t''] eqn:E'.
    + destruct (is_space c'); [discriminate|]. now rewrite IH.
    + now rewrite IH.
Qed.

(** The last character left by [rstrip], if any, is not whitespace. *)
Lemma rstrip_last (s : string) :
  forall a c, rstrip s = (a ++ String c EmptyString)%string ->
              is_space c = false.
Proof.
  induction s as [|x t IH]; simpl; intros a c.
  - destruct a; discriminate.
  - destruct (rstrip t) as [|c' t'] eqn:E.
    + destruct (is_space x) eqn:Ex; [destruct a; discriminate|].
      destruct a as [|y [|z a]]; simpl; intros H; inversion H; subst; auto.
    + destruct a as [|y a]; simpl; intros H; inversion H; subst.
      now apply (IH a c).
Qed.

Lemma strip_lstrip (s : string) : lstrip (strip s) = strip s.
Proof.
  unfold strip. apply lstrip_clean.
  pose proof (rstrip_head (lstrip s) (lstrip_head s)) as H.
  destruct (rstrip (lstrip s)); auto.
Qed.

Lemma strip_idempotent_aux (s : string) : strip (strip s) = strip s.
Proof.
  unfold strip at 1. rewrite strip_lstrip. unfold strip.
  apply rstrip_idempotent.
Qed.

Lemma no_tag_without_lt (s : string) :
  has_char "<" s = false -> remove_tags s = s.
Proof.
  unfold remove_tags. induction s as [|c t IH]; simpl; auto.
  intros H. apply orb_false_iff in H. destruct H as [Hc Ht].
  rewrite Hc. now rewrite IH.
Qed.

Lemma no_nbsp_without_amp (s : string) :
  has_char "&" s = false -> replace_nbsp s = s.
Proof.
  unfold replace_nbsp. induction s as [|c t IH]; auto.
  intros H. simpl in H. apply orb_false_iff in H. destruct H as [Hc Ht].
  cbn [replace_nbsp_from]. unfold startswith at 1. fold startswith.
  rewrite Ascii.eqb_sym, Hc. simpl. now rewrite IH.
Qed.

End StringFacts.

(** [strip] leaves neither leading nor trailing whitespace, and a
    second [strip] changes nothing. *)
Theorem strip_idempotent (s : string) :
  strip (strip s) = strip s /\
  (forall c t, strip s = String c t -> is_space c = false) /\
  (forall a c, strip s = (a ++ String c EmptyString)%string ->
               is_space c = false).
Proof.
  split; [apply StringFacts.strip_idempotent_aux|]. split.
  - intros c t H. pose proof (StringFacts.strip_lstrip s) as Hl.
    rewrite H in Hl. simpl in Hl.
    destruct (is_space c) eqn:E; auto.
    exfalso. pose proof (StringFacts.lstrip_head t) as Hh.
    rewrite Hl in Hh. simpl in Hh. congruence.
  - intros a c H. unfold strip in H.
    eapply StringFacts.rstrip_last; eauto.
Qed.

(** X1. The keys of the index are stripped cleaned names: every key of
    the index built from nothing is the cleaned name of one of its
    matches, and stripping it again returns it. *)
Theorem index_keys_stripped (ms : list (Z * string)) (k : string) :
  In k (keys (index_matches [] ms)) ->
  stripped k /\ exists c h, In (c, h) ms /\ clean_name h = k.
Proof.
  intros H. unfold keys in H. apply in_map_iff in H.
  destruct H as [[k' v] [Hk Hin]]. simpl in Hk. subst k'.
  apply index_matches_In in Hin. destruct Hin as [[]|[h [Hh Hc]]].
  split; [|eauto]. subst k. unfold stripped, clean_name.
  apply StringFacts.strip_idempotent_aux.
Qed.

Lemma index_keys_stripped_witness :
  stripped "NWA 869" /\
  exists c h, In (c, h) [(1234, " <b>NWA&nbsp;869</b> ")] /\
              clean_name h = "NWA 869".
Proof.
  apply (index_keys_stripped [(1234, " <b>NWA&nbsp;869</b> ")] "NWA 869").
  left. reflexivity.
Defined.

(** X2. A captured name without markup ([<]) and without entities ([&])
    is only trimmed by the cleaning. *)
Theorem clean_name_plain (h : string) :
  has_char "<" h = false -> has_char "&" h = false ->
  clean_name h = strip h.
Proof.
  intros Hlt Hamp. unfold clean_name.
  now rewrite (StringFacts.no_tag_without_lt h Hlt),
    (StringFacts.no_nbsp_without_amp h Hamp).
Qed.

Lemma clean_name_plain_witness : clean_name " Allende " = strip " Allende ".
Proof. apply clean_name_plain; reflexivity. Defined.

(** ** More on the backfill *)

Module BackfillFacts.

Lemma fill_id_present (m l : dict) (r : row) :
  exists v, fill_id m l r = Some v.
Proof.
  unfold fill_id. destruct (id r) as [v|]; simpl.
  - destruct (negb (v =? 0)); eauto.
    destruct (get m _); eauto. destruct (get l _); eauto.
  - destruct (get m _); eauto. destruct (get l _); eauto.
Qed.

Lemma fill_id_keeps_resolved (m l : dict) (r : row) :
  missing r = false -> fill_id m l r = id r.
Proof.
  unfold missing, fill_id. destruct (id r) as [v|]; [|discriminate].
  simpl. intros ->. reflexivity.
Qed.

Lemma missing_set_id (r : row) (v : option Z) :
  missing (set_id r v) = match v with Some x => x =? 0 | None => true end.
Proof. reflexivity. Qed.

Lemma filled_id_present `{Pf : Platform} (m : dict) (r : row) :
  exists v, filled_id m r = Some v.
Proof.
  unfold filled_id.
  destruct (fill_id_present m (name_id_map_lower m) r) as [v ->].
  destruct (missing r); simpl; eauto.
Qed.

Lemma missing_after `{Pf : Platform} (m : dict) (r : row) :
  missing (set_id r (filled_id m r)) = true -> missing r = true.
Proof.
  destruct (missing r) eqn:E; auto.
  unfold filled_id. rewrite E, (fill_id_keeps_resolved _ _ r E).
  unfold missing in *. simpl. now rewrite E.
Qed.

Lemma filter_length_le {A : Type} (f g : A -> A) (p q : A -> bool) (l : list A) :
  (forall x, p (f x) = true -> q x = true) ->
  (List.length (filter p (map f l)) <= List.length (filter q l))%nat.
Proof.
  intros H. induction l as [|x l IH]; simpl; auto.
  destruct (p (f x)) eqn:E.
  - rewrite (H x E). simpl. lia.
  - destruct (q x); simpl; lia.
Qed.

End BackfillFacts.

(** X3. After an apply step no id is missing as NaN: every row has an id,
    0 when it stays unresolved. *)
Theorem apply_leaves_no_nan `{Pf : Platform} (m : dict) (df : DataFrame) :
  Forall (fun r => exists v, id r = Some v) (apply_ids m df).
Proof.
  rewrite apply_ids_map. apply Forall_forall. intros r' H.
  apply in_map_iff in H. destruct H as [r [<- _]]. simpl.
  apply BackfillFacts.filled_id_present.
Qed.

(** X4. An apply step never makes a resolved record unresolved: row by
    row, a record that is missing its id afterwards was missing it
    before, so that the count of missing ids cannot grow and the number
    of filled ids the scripts print is not negative. *)
Theorem apply_missing_monotone `{Pf : Platform} (m : dict) (df : DataFrame) :
  Forall2 (fun r r' => missing r' = true -> missing r = true)
    df (apply_ids m df) /\
  (missing_count (apply_ids m df) <= missing_count df)%nat.
Proof.
  rewrite apply_ids_map. split.
  - induction df as [|r df IH]; simpl; constructor; auto.
    apply BackfillFacts.missing_after.
  - unfold missing_count. apply BackfillFacts.filter_length_le; auto.
    intros r. apply BackfillFacts.missing_after.
Qed.

(** X5. The backfill only hands out ids of the index: the id given to a
    record that was missing one is 0, or the id of an index entry whose
    name has the comparison key of the record's name. *)
Theorem backfill_sound (m : dict) (r : row) (v : Z) :
  missing r = true ->
  fill_id m (name_id_map_lower m) r = Some v ->
  v = 0 \/
  exists k, In (k, v) m /\ lower k = compareKey (str (name r)).
Proof.
  intros Hm. rewrite (fill_id_missing _ _ r Hm).
  unfold compareKey.
  destruct (get m (strip (str (name r)))) as [w|] eqn:Hg.
  - intros [= ->]. right. apply get_In in Hg. eauto.
  - rewrite name_id_map_lower_get.
    destruct (last_lower _ m) as [w|] eqn:Hl.
    + intros [= ->]. right. apply last_lower_In in Hl.
      destruct Hl as [k [H1 H2]]. eauto.
    + intros [= <-]. now left.
Qed.

Lemma backfill_sound_witness :
  1234 = 0 \/
  exists k, In (k, 1234) [("NWA 869", 1234)] /\
            lower k = compareKey (str (Some " nwa 869 ")).
Proof.
  apply (backfill_sound [("NWA 869", 1234)]
           (bare (Some " nwa 869 ") None None) 1234); reflexivity.
Defined.

(** X6. The backfill misses no indexed name: when some index entry has
    the comparison key of the name of a record that is missing its id,
    the record receives the id of such an entry. *)
Theorem backfill_complete (m : dict) (r : row) (k : string) (v : Z) :
  missing r = true ->
  In (k, v) m -> lower k = compareKey (str (name r)) ->
  exists k' w, fill_id m (name_id_map_lower m) r = Some w /\
               In (k', w) m /\ lower k' = compareKey (str (name r)).
Proof.
  intros Hm Hin Hk. rewrite (fill_id_missing _ _ r Hm).
  unfold compareKey in *.
  destruct (get m (strip (str (name r)))) as [w|] eqn:Hg.
  - apply get_In in Hg. eauto.
  - rewrite name_id_map_lower_get.
    destruct (In_last_lower m k v Hin) as [w Hw]. rewrite Hk in Hw.
    rewrite Hw. apply last_lower_In in Hw. destruct Hw as [k' [H1 H2]].
    eauto.
Qed.

Lemma backfill_complete_witness :
  exists k' w,
    fill_id [("ALLENDE", 5)] (name_id_map_lower [("ALLENDE", 5)])
      (bare (Some " Allende ") (Some 0) None) = Some w /\
    In (k', w) [("ALLENDE", 5)] /\
    lower k' = compareKey (str (Some " Allende ")).
Proof.
  apply (backfill_complete [("ALLENDE", 5)]
           (bare (Some " Allende ") (Some 0) None) "ALLENDE" 5).
  - reflexivity.
  - left. reflexivity.
  - reflexivity.
Defined.

(** X7. With an empty index an apply step only replaces missing ids by
    0: resolved ids stay and every NaN becomes 0. *)
Theorem apply_empty_index `{Pf : Platform} (df : DataFrame) :
  apply_ids [] df =
  map (fun r => if missing r then set_id r (Some 0) else r) df.
Proof.
  rewrite apply_ids_map. apply map_ext. intros r.
  unfold filled_id. destruct (missing r) eqn:E.
  - now rewrite (fill_id_missing _ _ r E).
  - rewrite (BackfillFacts.fill_id_keeps_resolved _ _ r E).
    now destruct r.
Qed.

(** ** More on the index *)

Module IndexFacts.

Lemma keys_get (d : dict) (k : string) :
  In k (keys d) <-> exists v, get d k = Some v.
Proof.
  split.
  - intros H. unfold keys in H. apply in_map_iff in H.
    destruct H as [[k' v] [Hk Hin]]. simpl in Hk. subst k'.
    eapply In_get; eauto.
  - intros [v Hv]. apply get_In in Hv. unfold keys.
    change k with (fst (k, v)). now apply in_map.
Qed.

Lemma set_length (d : dict) (k : string) (v : Z) :
  (List.length (set d k v) <= S (List.length d))%nat.
Proof.
  induction d as [|[k' v'] d IH]; simpl; auto.
  destruct (String.eqb k k'); simpl; lia.
Qed.

Lemma fold_set_length {A : Type} (f : A -> string) (g : A -> Z) (l : list A) :
  forall d : dict,
    (List.length (fold_left (fun m x => set m (f x) (g x)) l d)
     <= List.length d + List.length l)%nat.
Proof.
  induction l as [|x l IH]; intros d; simpl; [lia|].
  specialize (IH (set d (f x) (g x))).
  pose proof (set_length d (f x) (g x)). lia.
Qed.

Lemma fold_set_NoDup {A : Type} (f : A -> string) (g : A -> Z) (l : list A) :
  forall d : dict,
    NoDup (keys d) ->
    NoDup (keys (fold_left (fun m x => set m (f x) (g x)) l d)).
Proof.
  induction l as [|x l IH]; intros d Hd; simpl; auto.
  apply IH. now apply NoDup_set.
Qed.

Lemma last_code_In (ms : list (Z * string)) (c : Z) (h : string) :
  In (c, h) ms -> exists c', last_code (clean_name h) ms = Some c'.
Proof.
  induction ms as [|[c0 h0] ms IH]; simpl; [tauto|].
  intros [H|H].
  - inversion H; subst. destruct (last_code (clean_name h) ms); eauto.
    rewrite String.eqb_refl. eauto.
  - destruct (IH H) as [c' ->]. eauto.
Qed.

End IndexFacts.

(** X8. The index is a proper dict over the extracted names: its keys are
    pairwise distinct, it has at most one entry per match, and every
    extracted name is a key of it. *)
Theorem index_invariant (ms : list (Z * string)) :
  NoDup (keys (index_matches [] ms)) /\
  (List.length (index_matches [] ms) <= List.length ms)%nat /\
  Forall (fun ch => exists v, get (index_matches [] ms) (clean_name (snd ch)) = Some v)
    ms.
Proof.
  split; [|split].
  - apply index_matches_NoDup. constructor.
  - unfold index_matches.
    pose proof (IndexFacts.fold_set_length
                  (fun cn : Z * string => clean_name (snd cn)) fst ms []) as H.
    exact H.
  - apply Forall_forall. intros [c h] Hin. simpl.
    rewrite index_matches_get.
    destruct (IndexFacts.last_code_In ms c h Hin) as [c' ->]. eauto.
Qed.

(** X9. The lowercase map is the exact map seen through [lower]: its
    keys are pairwise distinct and already lowercase, each is the
    lowercase form of an exact key and holds the id of an exact entry of
    that form, the lowercase form of every exact key is a key of it, and
    it is no larger than the exact map. *)
Theorem lowercase_map_invariant (m : dict) :
  let l := name_id_map_lower m in
  NoDup (keys l) /\
  (List.length l <= List.length m)%nat /\
  (forall k v, get l k = Some v ->
               lower k = k /\ exists k', In (k', v) m /\ lower k' = k) /\
  (forall k v, In (k, v) m -> exists w, get l (lower k) = Some w).
Proof.
  intros l. subst l. split; [|split; [|split]].
  - unfold name_id_map_lower.
    apply (IndexFacts.fold_set_NoDup (fun kv : string * Z => lower (fst kv)) snd).
    constructor.
  - unfold name_id_map_lower.
    exact (IndexFacts.fold_set_length
             (fun kv : string * Z => lower (fst kv)) snd m []).
  - intros k v H. rewrite name_id_map_lower_get in H.
    apply last_lower_In in H. destruct H as [k' [H1 H2]].
    split; [|eauto]. subst k. apply StringFacts.lower_idempotent.
  - intros k v H. rewrite name_id_map_lower_get.
    eapply In_last_lower; eauto.
Qed.

Lemma lowercase_map_invariant_witness :
  lower "allende" = "allende" /\
  exists k', In (k', 2) (index_matches [] allende_thrice) /\ lower k' = "allende".
Proof.
  apply (proj1 (proj2 (proj2 (lowercase_map_invariant
                                (index_matches [] allende_thrice))))
           "allende" 2).
  reflexivity.
Defined.

(** ** More on the crawl sessions *)

Module CrawlFacts.

Import Crawl CrawlProps.

Lemma visited_prefix (stops : nat -> bool) (n : nat) :
  forall a, exists k,
    visited stops (seq a n) = seq a k /\ (k <= n)%nat /\
    ((0 < n)%nat -> (0 < k)%nat).
Proof.
  induction n as [|n IH]; intros a; simpl.
  - exists 0%nat. simpl. repeat split; lia.
  - destruct (stops a).
    + exists 1%nat. simpl. repeat split; lia.
    + destruct (IH (S a)) as (k & Hk & Hle & _).
      exists (S k). simpl. rewrite Hk. repeat split; lia.
Qed.

Lemma gather_fold (fetch : nat -> response) (ps : list nat) :
  forall m, fold_left (gather fetch) ps m =
            index_matches m (matches_of fetch ps).
Proof.
  induction ps as [|p ps IH]; intros m; simpl; auto.
  unfold matches_of in *. simpl. rewrite index_matches_app, IH.
  unfold gather. now destruct (fetch p).
Qed.

Lemma requested_emit_other (e : event) (st : state) :
  requested [e] = [] -> requested (log (emit e st)) = requested (log st).
Proof.
  intros H. rewrite log_emit, requested_app, H. apply app_nil_r.
Qed.

Lemma requested_checkpoint `{Pf : Platform} (st : state) :
  requested (log (checkpoint st)) = requested (log st).
Proof. rewrite log_checkpoint, requested_app. apply app_nil_r. Qed.

Section Loops.

Context `{Pf : Platform}.
Variable fetch : nat -> response.

Lemma fix_names_error p q :
  In (Error q) (page_log (fix_names_page fetch) p) ->
  q = p /\ fetch p = Raises.
Proof. body_cases fetch p; simpl; intuition congruence. Qed.

Lemma finish_filling_loop_index (st : state) :
  index (finish_filling_loop fetch st) =
  fold_left (gather fetch) (visited (below_floor fetch) (seq 0 101)) (index st).
Proof.
  apply (for_range_index fetch _ (below_floor fetch)
           (finish_filling_flow fetch) (finish_filling_index fetch)).
Qed.

Lemma fill_remaining_loop_index (st : state) :
  index (fill_remaining_loop fetch st) =
  fold_left (gather fetch) (seq 100 81) (index st).
Proof.
  unfold fill_remaining_loop.
  rewrite (for_range_index fetch _ never
             (fill_remaining_flow fetch) (fill_remaining_index fetch)).
  now rewrite visited_never.
Qed.

Lemma fix_names_loop_index (st : state) :
  index (fix_names_loop fetch st) =
  fold_left (gather fetch) (seq 0 61) (index st).
Proof.
  unfold fix_names_loop.
  rewrite (for_range_index fetch _ never
             (fix_names_flow fetch) (fix_names_index fetch)).
  now rewrite visited_never.
Qed.

(** In the log of a loop, an error that names page [p] was printed in
    the turn of [p], and the error of a page whose request raised is
    there. *)
Lemma error_in_pages (body : nat -> state -> state * flow) (ps : list nat)
  (p : nat) :
  (forall q e, In (Error e) (page_log body q) -> e = q) ->
  (forall q, fetch q = Raises -> page_log body q = [Request q; Error q]) ->
  (In (Error p) (flat_map (page_log body) ps) -> In p ps) /\
  (In p ps -> fetch p = Raises -> In (Error p) (flat_map (page_log body) ps)).
Proof.
  intros Honly Hraise. rewrite in_flat_map. split.
  - intros [q [Hq He]]. apply Honly in He. now subst q.
  - intros Hp Hr. exists p. split; auto. rewrite (Hraise p Hr).
    simpl. tauto.
Qed.

End Loops.

End CrawlFacts.

(** X10. Every identifier session requests consecutive pages from the
    first page of its range, each page once, and never more than the
    range holds: at most 25, 101, 81 and 61 requests. *)
Theorem crawls_request_in_order `{Pf : Platform}
  (fetch : nat -> Crawl.response) (input : option DataFrame) :
  (exists k, (k <= 25)%nat /\
     Crawl.requested (Crawl.log (Crawl.fill_missing_ids fetch input)) = seq 0 k) /\
  (exists k, (k <= 101)%nat /\
     Crawl.requested (Crawl.log (Crawl.finish_filling_ids fetch input)) = seq 0 k) /\
  (exists k, (k <= 81)%nat /\
     Crawl.requested (Crawl.log (Crawl.fill_remaining_ids fetch input)) = seq 100 k) /\
  (exists k, (k <= 61)%nat /\
     Crawl.requested (Crawl.log (Crawl.fix_names_and_fetch_ids fetch input)) = seq 0 k).
Proof.
  unfold Crawl.fill_missing_ids, Crawl.finish_filling_ids,
    Crawl.fill_remaining_ids, Crawl.fix_names_and_fetch_ids.
  destruct input as [df|];
    [|repeat split; exists 0%nat; split; try lia; reflexivity].
  split; [|split; [|split]].
  - destruct (Nat.eqb _ 0); [exists 0%nat; split; [lia|reflexivity]|].
    rewrite CrawlFacts.requested_checkpoint,
      CrawlProps.fill_missing_loop_requested.
    destruct (CrawlFacts.visited_prefix (raises fetch) 25 0) as (k & -> & H & _).
    eauto.
  - destruct (Nat.eqb _ 0); [exists 0%nat; split; [lia|reflexivity]|].
    rewrite CrawlFacts.requested_checkpoint,
      CrawlProps.finish_filling_loop_requested.
    destruct (CrawlFacts.visited_prefix (below_floor fetch) 101 0)
      as (k & -> & H & _).
    eauto.
  - destruct (Nat.eqb _ 0); [exists 0%nat; split; [lia|reflexivity]|].
    rewrite CrawlFacts.requested_checkpoint,
      CrawlProps.fill_remaining_loop_requested.
    exists 81%nat. split; [lia|reflexivity].
  - destruct (Nat.eqb _ 0); [exists 0%nat; split; [lia|reflexivity]|].
    rewrite CrawlFacts.requested_checkpoint,
      CrawlProps.fix_names_loop_requested.
    exists 61%nat. split; [lia|reflexivity].
Qed.

(** X11. In each identifier crawl an error message names a page only if
    that page was requested, and every requested page whose request
    raised is reported by its error message. *)
Theorem errors_name_requested_pages `{Pf : Platform}
  (fetch : nat -> Crawl.response) (df : DataFrame) (p : nat) :
  (let t := Crawl.log (Crawl.fill_missing_loop fetch (Crawl.start df)) in
   (In (Crawl.Error p) t -> In p (Crawl.requested t)) /\
   (In p (Crawl.requested t) -> fetch p = Crawl.Raises ->
    In (Crawl.Error p) t)) /\
  (let t := Crawl.log (Crawl.finish_filling_loop fetch (Crawl.start df)) in
   (In (Crawl.Error p) t -> In p (Crawl.requested t)) /\
   (In p (Crawl.requested t) -> fetch p = Crawl.Raises ->
    In (Crawl.Error p) t)) /\
  (let t := Crawl.log (Crawl.fill_remaining_loop fetch (Crawl.start df)) in
   (In (Crawl.Error p) t -> In p (Crawl.requested t)) /\
   (In p (Crawl.requested t) -> fetch p = Crawl.Raises ->
    In (Crawl.Error p) t)) /\
  (let t := Crawl.log (Crawl.fix_names_loop fetch (Crawl.start df)) in
   (In (Crawl.Error p) t -> In p (Crawl.requested t)) /\
   (In p (Crawl.requested t) -> fetch p = Crawl.Raises ->
    In (Crawl.Error p) t)).
Proof.
  split; [|split; [|split]]; intros t; subst t.
  - rewrite CrawlProps.fill_missing_loop_requested,
      CrawlProps.fill_missing_loop_log.
    apply CrawlFacts.error_in_pages.
    + intros q e He. now apply CrawlProps.fill_missing_error in He.
    + apply CrawlProps.fill_missing_raises.
  - rewrite CrawlProps.finish_filling_loop_requested,
      CrawlProps.finish_filling_loop_log.
    apply CrawlFacts.error_in_pages.
    + intros q e. apply CrawlProps.finish_filling_error.
    + apply CrawlProps.finish_filling_raises.
  - rewrite CrawlProps.fill_remaining_loop_requested,
      CrawlProps.fill_remaining_loop_log.
    apply CrawlFacts.error_in_pages.
    + intros q e. apply CrawlProps.fill_remaining_error.
    + apply CrawlProps.fill_remaining_raises.
  - rewrite CrawlProps.fix_names_loop_requested,
      CrawlProps.fix_names_loop_log.
    apply CrawlFacts.error_in_pages.
    + intros q e He. now apply CrawlFacts.fix_names_error in He.
    + apply CrawlProps.fix_names_raises.
Qed.

Lemma errors_name_requested_pages_witness :
  In (Crawl.Error 0)
     (Crawl.log (Crawl.finish_filling_loop down_at_first (Crawl.start nwa_frame))).
Proof.
  refine (proj2 (proj1 (proj2 (errors_name_requested_pages down_at_first
                                 nwa_frame 0%nat))) _ eq_refl).
  left. reflexivity.
Defined.

(** X12. When a crawl loop ends, its index is the index built from the
    matches of the pages it requested, read in page order: nothing of a
    requested page is lost and nothing else gets in. *)
Theorem crawl_index_of_requested_pages `{Pf : Platform}
  (fetch : nat -> Crawl.response) (df : DataFrame) :
  (let st := Crawl.fill_missing_loop fetch (Crawl.start df) in
   Crawl.index st =
   index_matches [] (matches_of fetch (Crawl.requested (Crawl.log st)))) /\
  (let st := Crawl.finish_filling_loop fetch (Crawl.start df) in
   Crawl.index st =
   index_matches [] (matches_of fetch (Crawl.requested (Crawl.log st)))) /\
  (let st := Crawl.fill_remaining_loop fetch (Crawl.start df) in
   Crawl.index st =
   index_matches [] (matches_of fetch (Crawl.requested (Crawl.log st)))) /\
  (let st := Crawl.fix_names_loop fetch (Crawl.start df) in
   Crawl.index st =
   index_matches [] (matches_of fetch (Crawl.requested (Crawl.log st)))).
Proof.
  split; [|split; [|split]]; intros st; subst st.
  - now rewrite CrawlProps.fill_missing_loop_requested,
      CrawlProps.fill_missing_loop_index, CrawlFacts.gather_fold.
  - now rewrite CrawlProps.finish_filling_loop_requested,
      CrawlFacts.finish_filling_loop_index, CrawlFacts.gather_fold.
  - now rewrite CrawlProps.fill_remaining_loop_requested,
      CrawlFacts.fill_remaining_loop_index, CrawlFacts.gather_fold.
  - now rewrite CrawlProps.fix_names_loop_requested,
      CrawlFacts.fix_names_loop_index, CrawlFacts.gather_fold.
Qed.

(** X13. [fill_missing_ids] end to end: a record that is missing its id,
    and whose stripped name is the cleaned name of a match on a requested
    page, is written to the output file with the id of the latest such
    match as the [id] column holds it, which is that id itself when its
    magnitude is at most 2^53; all its other fields are as loaded. *)
Theorem fill_missing_ids_end_to_end `{Pf : Platform}
  (fetch : nat -> Crawl.response) (df : DataFrame) (i : nat) (r : row) (c : Z) :
  nth_error df i = Some r -> missing r = true ->
  last_code (strip (str (name r)))
    (matches_of fetch
       (Crawl.requested
          (Crawl.log (Crawl.fill_missing_loop fetch (Crawl.start df)))))
  = Some c ->
  exists out r',
    Crawl.file (Crawl.fill_missing_ids fetch (Some df)) = Some out /\
    nth_error out i = Some r' /\ id r' = Some (as_id c) /\
    (Z.abs c <= 2 ^ 53 -> id r' = Some c) /\ same_but_id r r'.
Proof.
  intros Hi Hm Hlast.
  assert (Hcount : Nat.eqb (missing_count df) 0 = false).
  { apply Nat.eqb_neq. unfold missing_count. intros H0.
    apply length_zero_iff_nil in H0.
    assert (Hin : In r (filter missing df)).
    { apply filter_In. split; auto. eapply nth_error_In; eauto. }
    rewrite H0 in Hin. destruct Hin. }
  unfold Crawl.fill_missing_ids. rewrite Hcount.
  rewrite CrawlProps.file_checkpoint.
  unfold Crawl.fill_missing_loop at 2.
  rewrite CrawlProps.fill_missing_loop_frame.
  rewrite CrawlProps.fill_missing_loop_index, CrawlFacts.gather_fold.
  rewrite CrawlProps.fill_missing_loop_requested in Hlast.
  change (Crawl.frame (Crawl.start df)) with df.
  change (Crawl.index (Crawl.start df)) with (@nil (string * Z)).
  set (ms := matches_of fetch (visited (raises fetch) (seq 0 25))) in *.
  clearbody ms.
  exists (apply_ids (index_matches [] ms) df).
  exists (set_id r (Some (as_id c))).
  split; [reflexivity|].
  rewrite apply_ids_map, nth_error_map, Hi.
  cbn [option_map].
  rewrite (filled_id_missing _ r Hm), (fill_id_missing _ _ r Hm),
    index_matches_get, Hlast.
  split; [reflexivity|]. split; [reflexivity|]. split.
  - intros Hc. simpl. now rewrite as_id_small.
  - unfold same_but_id. simpl. tauto.
Qed.

Lemma fill_missing_ids_end_to_end_witness :
  exists out r',
    Crawl.file (Crawl.fill_missing_ids empty_then_nwa (Some nwa_frame)) = Some out /\
    nth_error out 0 = Some r' /\ id r' = Some 1234 /\
    same_but_id (bare (Some "NWA 869") (Some 0) None) r'.
Proof.
  destruct (fill_missing_ids_end_to_end empty_then_nwa nwa_frame 0
              (bare (Some "NWA 869") (Some 0) None) 1234
              eq_refl eq_refl eq_refl) as (out & r' & Hf & Hn & _ & Hid & Hs).
  exists out, r'. split; [exact Hf|]. split; [exact Hn|]. split; [|exact Hs].
  apply Hid. apply Z.leb_le. reflexivity.
Defined.

(** ** The name repair of fix_names_and_ids.py *)

Module NameFacts.

Lemma remove_asterisks_clean (s : string) :
  has_asterisk (remove_asterisks s) = false.
Proof.
  induction s as [|c t IH]; simpl; auto.
  destruct (Ascii.eqb c "*") eqn:E; simpl; auto. now rewrite E.
Qed.

Lemma lstrip_no_asterisk (s : string) :
  has_asterisk s = false -> has_asterisk (lstrip s) = false.
Proof.
  induction s as [|c t IH]; simpl; auto.
  intros H. apply orb_false_iff in H. destruct H as [Hc Ht].
  destruct (is_space c); simpl; auto. now rewrite Hc, Ht.
Qed.

Lemma rstrip_no_asterisk (s : string) :
  has_asterisk s = false -> has_asterisk (rstrip s) = false.
Proof.
  induction s as [|c t IH]; simpl; auto.
  intros H. apply orb_false_iff in H. destruct H as [Hc Ht].
  specialize (IH Ht).
  destruct (rstrip t) as [|c' t'].
  - destruct (is_space c); simpl; auto. now rewrite Hc.
  - simpl in *. now rewrite Hc, IH.
Qed.

Lemma strip_no_asterisk (s : string) :
  has_asterisk s = false -> has_asterisk (strip s) = false.
Proof.
  intros H. unfold strip. now apply rstrip_no_asterisk, lstrip_no_asterisk.
Qed.

Lemma filter_nil {A : Type} (f : A -> bool) (l : list A) :
  filter f l = [] -> Forall (fun x => f x = false) l.
Proof.
  induction l as [|x l IH]; simpl; [constructor|].
  destruct (f x) eqn:E; [discriminate|]. constructor; auto.
Qed.

End NameFacts.

(** X14. After the name repair no name contains an asterisk, and every
    column but [name] is as it was, row by row. When the repair runs
    (some name had an asterisk) a name that is present has become its
    text without asterisks, stripped, and every name present afterwards
    is stripped; a missing name has become the text "nan" where
    [astype(str)] writes missing values as text (pandas 2) and has
    stayed missing where it keeps them (pandas 3). *)
Theorem clean_names_postcondition `{Pf : Platform} (df : DataFrame) :
  Forall (fun r => has_asterisk (str (name r)) = false) (clean_names df) /\
  Forall2 same_but_name df (clean_names df) /\
  (Exists (fun r => has_asterisk (str (name r)) = true) df ->
   Forall2 (fun r r' =>
              (forall n, name r = Some n ->
                         name r' = Some (strip (remove_asterisks n))) /\
              (forall n', name r' = Some n' -> stripped n') /\
              (name r = None ->
               name r' = if nan_as_text then Some "nan" else None))
     df (clean_names df)).
Proof.
  assert (Hd : forall c, str_contains_asterisk (astype_str c)
                         = has_asterisk (str c)).
  { intros [n|]; simpl; auto. now destruct nan_as_text. }
  unfold clean_names.
  destruct (filter _ df) as [|d ds] eqn:E.
  - simpl. split; [|split].
    + apply NameFacts.filter_nil in E.
      eapply Forall_impl; [|exact E]. intros r Hr. simpl in Hr.
      now rewrite <- Hd.
    + clear E. induction df; constructor; auto.
      unfold same_but_name. tauto.
    + intros Hex. apply Exists_exists in Hex. destruct Hex as [r [Hin Hr]].
      assert (Hf : In r (filter (fun r => str_contains_asterisk
                                            (astype_str (name r))) df)).
      { apply filter_In. split; auto. now rewrite Hd. }
      rewrite E in Hf. destruct Hf.
  - simpl. clear E. split; [|split].
    + apply Forall_forall. intros r' Hin. apply in_map_iff in Hin.
      destruct Hin as [r [<- _]]. simpl.
      destruct (name r) as [n|]; simpl.
      * apply NameFacts.strip_no_asterisk, NameFacts.remove_asterisks_clean.
      * now destruct nan_as_text.
    + induction df; simpl; constructor; auto.
      unfold same_but_name. simpl. tauto.
    + intros _. induction df as [|r df IH]; simpl; constructor; auto.
      split; [|split].
      * intros n Hn. now rewrite Hn.
      * intros n'. destruct (astype_str (name r)) as [n|]; simpl;
          [|discriminate].
        intros [= <-]. apply StringFacts.strip_idempotent_aux.
      * intros ->. simpl. now destruct nan_as_text.
Qed.

Lemma clean_names_postcondition_witness :
  let df := [bare (Some "Zag **") None None; bare None None None] in
  map name (@clean_names pandas2 df) = [Some "Zag"; Some "nan"] /\
  map name (@clean_names pandas3 df) = [Some "Zag"; None] /\
  Forall2 (fun r r' =>
             (forall n, name r = Some n ->
                        name r' = Some (strip (remove_asterisks n))) /\
             (forall n', name r' = Some n' -> stripped n') /\
             (name r = None -> name r' = None))
    df (@clean_names pandas3 df).
Proof.
  split; [reflexivity|]. split; [reflexivity|].
  apply (proj2 (proj2 (@clean_names_postcondition pandas3
                         [bare (Some "Zag **") None None;
                          bare None None None]))).
  left. reflexivity.
Defined.

(** ** The columns and categories of update_data.py *)

Module ColumnFacts.

Import Update.

Lemma startswith_contains (p s : string) :
  startswith p s = true -> contains p s = true.
Proof. destruct s; simpl; intros ->; reflexivity. Qed.

Lemma achondrite_has_chondrite (s : string) :
  contains "achondrite" s = true -> contains "chondrite" s = true.
Proof.
  induction s as [|c t IH]; [discriminate|].
  intros H. cbn [contains] in H. apply orb_true_iff in H.
  destruct H as [H|H].
  - cbn [contains]. apply orb_true_iff. right.
    apply startswith_contains.
    cbn [startswith] in H. apply andb_true_iff in H. tauto.
  - cbn [contains]. apply orb_true_iff. right. auto.
Qed.

Lemma normalize_idempotent (col : string) :
  normalize_column (normalize_column col) = normalize_column col.
Proof.
  unfold normalize_column.
  rewrite <- StringFacts.strip_lower, StringFacts.lower_idempotent.
  apply StringFacts.strip_idempotent_aux.
Qed.

End ColumnFacts.

(** X15. The category "Stony (Achondrite)" is only given to a class with
    "martian" or "lunar" in it and without "chondrite" (hence without
    "achondrite"), and every such class that has none of "iron",
    "mesosiderite" and "pallasite" gets it. A class with "achondrite" in
    its name is filed under the irons or under "Stony (Chondrite)",
    since "achondrite" contains "chondrite" and that test comes
    first. *)
Theorem achondrite_filed_as_chondrite (c : option string) :
  (Update.get_category c = "Stony (Achondrite)" ->
   (contains "martian" (lower (str c)) = true \/
    contains "lunar" (lower (str c)) = true) /\
   contains "chondrite" (lower (str c)) = false /\
   contains "achondrite" (lower (str c)) = false) /\
  ((contains "martian" (lower (str c)) = true \/
    contains "lunar" (lower (str c)) = true) ->
   contains "chondrite" (lower (str c)) = false ->
   contains "iron" (lower (str c)) = false ->
   contains "mesosiderite" (lower (str c)) = false ->
   contains "pallasite" (lower (str c)) = false ->
   Update.get_category c = "Stony (Achondrite)") /\
  (contains "achondrite" (lower (str c)) = true ->
   Update.get_category c = "Iron / Stony-Iron" \/
   Update.get_category c = "Stony (Chondrite)").
Proof.
  unfold Update.get_category.
  destruct (contains "iron" (lower (str c))) eqn:Ei;
    [repeat split; try discriminate; auto|].
  destruct (contains "mesosiderite" (lower (str c))) eqn:Em;
    [repeat split; try discriminate; auto|].
  destruct (contains "pallasite" (lower (str c))) eqn:Ep;
    [repeat split; try discriminate; auto|].
  cbn [orb].
  destruct (contains "chondrite" (lower (str c))) eqn:Ech.
  - split; [discriminate|]. split; [discriminate|auto].
  - assert (Ha : contains "achondrite" (lower (str c)) = false).
    { destruct (contains "achondrite" _) eqn:Ea; auto.
      apply ColumnFacts.achondrite_has_chondrite in Ea. congruence. }
    rewrite Ha. cbn [orb]. split; [|split; [|discriminate]].
    + intros Hc. split; [|auto].
      destruct (contains "martian" _); [auto|].
      destruct (contains "lunar" _); [auto|discriminate].
    + intros [Hm|Hl] _ _ _ _.
      * now rewrite Hm.
      * rewrite Hl. now destruct (contains "martian" _).
Qed.

Lemma achondrite_filed_as_chondrite_witness :
  (Update.get_category (Some "Achondrite-ung") = "Iron / Stony-Iron" \/
   Update.get_category (Some "Achondrite-ung") = "Stony (Chondrite)") /\
  Update.get_category (Some "Martian (shergottite)") = "Stony (Achondrite)" /\
  contains "chondrite" (lower (str (Some "Martian (shergottite)"))) = false.
Proof.
  split; [|split].
  - apply (proj2 (proj2 (achondrite_filed_as_chondrite (Some "Achondrite-ung")))).
    reflexivity.
  - apply (proj1 (proj2 (achondrite_filed_as_chondrite
                           (Some "Martian (shergottite)"))));
      try reflexivity.
    left. reflexivity.
  - apply (proj1 (achondrite_filed_as_chondrite
                    (Some "Martian (shergottite)"))).
    reflexivity.
Defined.

(** X16. The column renaming is stable: normalizing and renaming the
    label it produced gives that label again, so that a table whose
    headers are already the canonical ones keeps them. *)
Theorem rename_idempotent (col : string) :
  let label := Update.rename (Update.normalize_column col) in
  Update.rename (Update.normalize_column label) = label.
Proof.
  intros label. subst label.
  destruct (Update.col_map (Update.normalize_column col)) as [t|] eqn:E.
  - assert (Hr : Update.rename (Update.normalize_column col) = t)
      by (unfold Update.rename; now rewrite E).
    rewrite Hr. clear Hr. unfold Update.col_map in E.
    repeat match type of E with
      | (if ?b then _ else _) = _ => destruct b
      end; inversion E; reflexivity.
  - assert (Hr : Update.rename (Update.normalize_column col)
                 = Update.normalize_column col)
      by (unfold Update.rename; now rewrite E).
    rewrite Hr, ColumnFacts.normalize_idempotent. exact Hr.
Qed.

(** ** More on the scrape loop *)

Module ScrapeFacts.

Import Update UpdateProps.

Section Scrape.

Variable chunk : Type.
Variable year_column : chunk -> option (list (option Q)).
Variable fetch : nat -> scrape chunk.

(** Closes the side conditions of a loop turn once its end state is
    known. *)
Ltac turn_facts :=
  simpl; rewrite ?scrape_requested_app; simpl;
  rewrite <- ?app_assoc, ?app_nil_r; simpl;
  repeat split; auto.

(** What one turn of the loop at page [q] does: it requests [q], collects
    at most one chunk, a collectable one, and either ends or goes on from
    page [q + 1]. *)
Lemma scrape_turn (fuel q : nat) (st : state chunk) :
  exists st' new,
    (scrape_from year_column fetch (S fuel) q st = Some st' \/
     (scrape_from year_column fetch (S fuel) q st =
      scrape_from year_column fetch fuel (S q) st' /\
      exists c, fetch q = Table c)) /\
    requested (log st') = (requested (log st) ++ [q])%list /\
    all_dfs st' = (all_dfs st ++ new)%list /\
    (List.length new <= 1)%nat /\
    Forall (collectable year_column) new.
Proof.
  cbn [scrape_from].
  destruct (fetch q) as [| |c] eqn:Hq.
  - eexists. exists []. split; [left; reflexivity|]. turn_facts.
  - eexists. exists []. split; [left; reflexivity|]. turn_facts.
  - destruct (year_column c) as [[|cell col]|] eqn:Hy.
    + eexists. exists []. split; [left; reflexivity|]. turn_facts.
    + cbn [map col_min col_max py_int List.length Nat.eqb].
      destruct (_ && _).
      * eexists. exists [c]. split; [left; reflexivity|]. turn_facts.
        constructor; [|constructor]. exists cell, col. exact Hy.
      * eexists. exists [c].
        split; [right; split; [reflexivity|eauto]|]. turn_facts.
        constructor; [|constructor]. exists cell, col. exact Hy.
    + eexists. exists [].
      split; [right; split; [reflexivity|eauto]|]. turn_facts.
Qed.

Lemma scrape_from_shape (fuel : nat) :
  forall (q : nat) (st fin : state chunk),
    scrape_from year_column fetch fuel q st = Some fin ->
    exists k new,
      requested (log fin) = (requested (log st) ++ seq q k)%list /\
      (1 <= k <= fuel)%nat /\
      all_dfs fin = (all_dfs st ++ new)%list /\
      (List.length new <= k)%nat /\
      Forall (collectable year_column) new.
Proof.
  induction fuel as [|fuel IH]; intros q st fin Hfin; [discriminate|].
  destruct (scrape_turn fuel q st)
    as (st' & new & [Hend|[Hgo _]] & Hreq & Hdfs & Hlen & Hcol).
  - rewrite Hend in Hfin. inversion Hfin; subst fin.
    exists 1%nat, new. simpl. repeat split; auto; lia.
  - rewrite Hgo in Hfin. apply IH in Hfin.
    destruct Hfin as (k & new' & Hreq' & Hk & Hdfs' & Hlen' & Hcol').
    exists (S k), (new ++ new')%list. simpl.
    rewrite Hreq', Hreq, Hdfs', Hdfs, <- !app_assoc. simpl.
    repeat split; auto; try lia.
    + rewrite length_app. lia.
    + apply Forall_app. auto.
Qed.

(** With a page [p] that has no table or whose request raises, the loop
    started [d] pages before it ends within [d + 1] turns. *)
Lemma scrape_ends (p : nat) :
  (fetch p = NoTable \/ fetch p = GetRaises) ->
  forall (d fuel q : nat) (st : state chunk),
    (q + d = p)%nat -> (d < fuel)%nat ->
    exists fin k,
      scrape_from year_column fetch fuel q st = Some fin /\
      requested (log fin) = (requested (log st) ++ seq q k)%list /\
      (k <= S d)%nat.
Proof.
  intros Hp. induction d as [|d IH]; intros fuel q st Hq Hfuel.
  - replace q with p by lia. destruct fuel as [|fuel]; [lia|].
    destruct (scrape_turn fuel p st)
      as (st' & new & [Hend|[_ [c Hc]]] & Hreq & _).
    + exists st', 1%nat. simpl. auto.
    + destruct Hp; congruence.
  - destruct fuel as [|fuel]; [lia|].
    destruct (scrape_turn fuel q st)
      as (st' & new & [Hend|[Hgo _]] & Hreq & _).
    + exists st', 1%nat. simpl. repeat split; auto. lia.
    + destruct (IH fuel (S q) st') as (fin & k & Hfin & Hreq' & Hk);
        [lia|lia|].
      exists fin, (S k). rewrite Hgo. split; [exact Hfin|].
      rewrite Hreq', Hreq, <- app_assoc. simpl. split; [reflexivity|lia].
Qed.

End Scrape.

End ScrapeFacts.

(** X17. When the scrape loop of [get_latest_meteorites] returns, it has
    requested the consecutive pages 0, 1, ..., each once, and every chunk
    it collected has a [year] column with at least one row; there are no
    more chunks than requests. *)
Theorem scrape_requests_and_chunks
  (chunk : Type) (year_column : chunk -> option (list (option Q)))
  (fetch : nat -> Update.scrape chunk) (fuel : nat) (fin : Update.state chunk) :
  Update.get_latest_meteorites year_column fetch fuel = Some fin ->
  exists k,
    Update.requested (Update.log fin) = seq 0 k /\ (1 <= k <= fuel)%nat /\
    (List.length (Update.all_dfs fin) <= k)%nat /\
    Forall (collectable year_column) (Update.all_dfs fin).
Proof.
  unfold Update.get_latest_meteorites. intros H.
  apply ScrapeFacts.scrape_from_shape in H.
  destruct H as (k & new & Hreq & Hk & Hdfs & Hlen & Hcol).
  simpl in Hreq, Hdfs. exists k. rewrite Hreq, Hdfs. auto.
Qed.

Lemma scrape_requests_and_chunks_witness :
  exists k,
    Update.requested [Update.Request 0; Update.Got 2 2010 2015;
                      Update.Request 1; Update.NoTableFound] = seq 0 k /\
    (1 <= k <= 2)%nat.
Proof.
  destruct (scrape_requests_and_chunks (list (option Q)) (fun c => Some c)
              mixed_years 2 _ eq_refl) as (k & H1 & H2 & _).
  exists k. split; [exact H1|exact H2].
Defined.

(** X18. The scrape loop ends as soon as the source runs dry: when some
    page has no table, or its request raises, the loop returns, given
    fuel for that many pages, having requested no page beyond it. *)
Theorem scrape_ends_at_dead_page
  (chunk : Type) (year_column : chunk -> option (list (option Q)))
  (fetch : nat -> Update.scrape chunk) (p fuel : nat) :
  fetch p = Update.NoTable \/ fetch p = Update.GetRaises ->
  (p < fuel)%nat ->
  exists fin,
    Update.get_latest_meteorites year_column fetch fuel = Some fin /\
    forall q, In q (Update.requested (Update.log fin)) -> (q <= p)%nat.
Proof.
  intros Hp Hfuel. unfold Update.get_latest_meteorites.
  destruct (ScrapeFacts.scrape_ends chunk year_column fetch p Hp p fuel 0
              {| Update.all_dfs := []; Update.log := [] |})
    as (fin & k & Hfin & Hreq & Hk); [lia|lia|].
  exists fin. split; [exact Hfin|].
  simpl in Hreq. rewrite Hreq. intros q Hq. apply in_seq in Hq. lia.
Qed.

Lemma scrape_ends_at_dead_page_witness :
  exists fin,
    Update.get_latest_meteorites (fun c => Some c) mixed_years 7 = Some fin /\
    forall q, In q (Update.requested (Update.log fin)) -> (q <= 1)%nat.
Proof.
  apply (scrape_ends_at_dead_page (list (option Q)) (fun c => Some c)
           mixed_years 1 7).
  - left. reflexivity.
  - repeat constructor.
Defined.

(** ** More on the merge *)

Module MergeFacts.

Import Update MergeProps.

Lemma lat_cmp_refl (a : option Q) : lat_cmp a a = Eq.
Proof.
  destruct a as [x|]; simpl; auto. apply Qeq_alt. reflexivity.
Qed.

Lemma lat_cmp_antisym_eq (a b : option Q) :
  lat_cmp a b <> Gt -> lat_cmp b a <> Gt -> lat_cmp a b = Eq.
Proof.
  rewrite (lat_cmp_antisym a b).
  destruct (lat_cmp a b); simpl; congruence.
Qed.

(** The survivor of a name sorts before every row of that name. *)
Lemma deduplicate_least (df : DataFrame) (r' x : row) :
  In r' (deduplicate df) -> In x df -> name x = name r' ->
  lat_cmp (reclat r') (reclat x) <> Gt.
Proof.
  intros Hin' Hin Hname.
  apply drop_duplicates_first in Hin'.
  destruct Hin' as [_ (l1 & l2 & Hl & Hfirst)].
  pose proof (sort_values_sorted df) as Hs. rewrite Hl in Hs.
  apply sorted_suffix, StronglySorted_inv in Hs. destruct Hs as [_ Hall].
  assert (Hx : In x (l1 ++ r' :: l2)).
  { rewrite <- Hl. eapply Permutation_in;
      [symmetry; apply sort_values_perm|exact Hin]. }
  apply in_app_or in Hx. destruct Hx as [Hx|[Hx|Hx]].
  - exfalso. apply (Hfirst x Hx). exact Hname.
  - subst x. rewrite lat_cmp_refl. discriminate.
  - rewrite Forall_forall in Hall. apply Hall in Hx.
    apply row_leb_spec in Hx. destruct Hx as [Hx|[_ Hx]]; auto.
    rewrite Hname, name_cmp_refl in Hx. discriminate.
Qed.

Lemma sort_values_sorted_id (l : DataFrame) :
  StronglySorted row_le l -> sort_values l = l.
Proof.
  induction 1 as [|x t Hs IH Hall]; auto.
  change (sort_values (x :: t)) with (insert x (sort_values t)).
  rewrite IH.
  destruct t as [|y t']; simpl; auto.
  inversion Hall as [|? ? Hxy _]; subst. unfold row_le in Hxy. now rewrite Hxy.
Qed.

Lemma drop_duplicates_incl (l : DataFrame) :
  forall seen r, In r (drop_duplicates_from seen l) -> In r l.
Proof.
  intros seen r H. apply drop_duplicates_first in H.
  destruct H as [_ (l1 & l2 & -> & _)]. apply in_or_app. right. now left.
Qed.

Lemma drop_duplicates_sorted (l : DataFrame) :
  StronglySorted row_le l ->
  forall seen, StronglySorted row_le (drop_duplicates_from seen l).
Proof.
  induction 1 as [|x t Hs IH Hall]; intros seen; simpl; [constructor|].
  destruct (existsb (name_eqb (name x)) seen); auto.
  constructor; auto. apply Forall_forall. intros y Hy.
  rewrite Forall_forall in Hall. apply Hall.
  eapply drop_duplicates_incl; eauto.
Qed.

Lemma drop_duplicates_id (l : DataFrame) :
  forall seen,
    NoDup (map name l) -> (forall r, In r l -> ~ In (name r) seen) ->
    drop_duplicates_from seen l = l.
Proof.
  induction l as [|x t IH]; intros seen Hnd Hseen; simpl; auto.
  inversion Hnd as [|? ? Hnotin Hnd']; subst.
  destruct (existsb (name_eqb (name x)) seen) eqn:E.
  - apply seen_spec in E. exfalso. apply (Hseen x); simpl; auto.
  - f_equal. apply IH; auto.
    intros r Hr [H|H].
    + apply Hnotin. rewrite H. now apply in_map.
    + apply (Hseen r); simpl; auto.
Qed.

Lemma deduplicate_sorted (df : DataFrame) :
  StronglySorted row_le (deduplicate df).
Proof. apply drop_duplicates_sorted, sort_values_sorted. Qed.

Lemma deduplicate_twice (df : DataFrame) :
  deduplicate (deduplicate df) = deduplicate df.
Proof.
  unfold deduplicate at 1. rewrite sort_values_sorted_id
    by apply deduplicate_sorted.
  unfold drop_duplicates. apply drop_duplicates_id.
  - apply deduplicate_names.
  - intros r _ [].
Qed.

(** Two lists in strictly increasing order with the same elements are
    equal. *)
Lemma strict_sorted_unique {A : Type} (lt : A -> A -> Prop) :
  (forall x, ~ lt x x) ->
  (forall x y z, lt x y -> lt y z -> lt x z) ->
  forall l1 l2,
    StronglySorted lt l1 -> StronglySorted lt l2 ->
    (forall x, In x l1 <-> In x l2) -> l1 = l2.
Proof.
  intros Hirr Htrans. induction l1 as [|a l1 IH]; intros l2 H1 H2 Hsame.
  - destruct l2 as [|b l2]; auto. exfalso. apply (Hsame b). now left.
  - destruct l2 as [|b l2]; [exfalso; apply (Hsame a); now left|].
    apply StronglySorted_inv in H1, H2.
    destruct H1 as [H1 Ha], H2 as [H2 Hb].
    rewrite Forall_forall in Ha, Hb.
    assert (Hab : a = b).
    { destruct (proj1 (Hsame a) (or_introl eq_refl)) as [Hba|Hin2]; auto.
      destruct (proj2 (Hsame b) (or_introl eq_refl)) as [Hab|Hin1]; auto.
      exfalso. apply (Hirr a). eapply Htrans; [apply Ha|apply Hb]; eauto. }
    subst b. f_equal. apply IH; auto.
    intros x. split; intros Hx.
    + destruct (proj1 (Hsame x) (or_intror Hx)) as [Hxa|]; auto.
      subst x. exfalso. apply (Hirr a). now apply Ha.
    + destruct (proj2 (Hsame x) (or_intror Hx)) as [Hxa|]; auto.
      subst x. exfalso. apply (Hirr a). now apply Hb.
Qed.

Lemma deduplicate_names_increasing (df : DataFrame) :
  StronglySorted (fun a b => name_cmp a b = Lt) (map name (deduplicate df)).
Proof.
  pose proof (deduplicate_sorted df) as Hs.
  pose proof (deduplicate_names df) as Hnd.
  induction Hs as [|x t Hs IH Hall]; simpl; [constructor|].
  inversion Hnd as [|? ? Hnotin Hnd']; subst.
  constructor; auto. apply Forall_forall. intros n Hn.
  apply in_map_iff in Hn. destruct Hn as [y [<- Hy]].
  rewrite Forall_forall in Hall. apply Hall in Hy as Hle.
  apply row_leb_spec in Hle. destruct Hle as [|[Heq _]]; auto.
  exfalso. apply Hnotin. rewrite Heq. now apply in_map.
Qed.

Lemma deduplicate_name_set (df : DataFrame) (n : option string) :
  In n (map name (deduplicate df)) <-> In n (map name df).
Proof.
  rewrite !in_map_iff. split.
  - intros [r [Hn Hr]]. exists r. split; auto. now apply deduplicate_In.
  - intros [r [Hn Hr]]. apply deduplicate_complete in Hr.
    destruct Hr as [r' [Hr' Hn']]. exists r'. split; auto. congruence.
Qed.

Lemma deduplicate_names_perm (X Y : DataFrame) :
  Permutation X Y ->
  map name (deduplicate X) = map name (deduplicate Y).
Proof.
  intros HP.
  apply (strict_sorted_unique (fun a b => name_cmp a b = Lt)).
  - intros x. rewrite name_cmp_refl. discriminate.
  - apply name_cmp_lt_trans.
  - apply deduplicate_names_increasing.
  - apply deduplicate_names_increasing.
  - intros n. rewrite !deduplicate_name_set, !in_map_iff.
    split; intros [r [Hn Hr]]; exists r; split; auto.
    + eapply Permutation_in; eauto.
    + eapply Permutation_in; [symmetry|]; eauto.
Qed.

Lemma survivors_pairwise (X Y : DataFrame) :
  Permutation X Y ->
  forall D1 D2,
    map name D1 = map name D2 ->
    (forall r, In r D1 -> In r (deduplicate X)) ->
    (forall r, In r D2 -> In r (deduplicate Y)) ->
    Forall2 same_survivor D1 D2.
Proof.
  intros HP. induction D1 as [|r1 D1 IH]; intros [|r2 D2] Hn H1 H2;
    try discriminate; constructor.
  - inversion Hn as [[Hname Htail]]. split; auto.
    assert (In1 : In r1 (deduplicate X)) by (apply H1; now left).
    assert (In2 : In r2 (deduplicate Y)) by (apply H2; now left).
    apply lat_cmp_antisym_eq.
    + apply (deduplicate_least X r1 r2 In1); auto.
      eapply Permutation_in; [symmetry; exact HP|].
      now apply deduplicate_In.
    + apply (deduplicate_least Y r2 r1 In2); auto.
      eapply Permutation_in; [exact HP|]. now apply deduplicate_In.
  - inversion Hn. apply IH; auto.
    + intros r Hr. apply H1. now right.
    + intros r Hr. apply H2. now right.
Qed.

End MergeFacts.

(** X19. Among the records of one name the merge keeps the one with the
    least latitude: the survivor's latitude is not greater than that of
    any record of its name in either snapshot, a missing latitude
    counting as greatest. *)
Theorem survivor_least_latitude (df_base df_new : DataFrame) (r' x : row) :
  In r' (Update.merge df_base df_new) ->
  In x (df_base ++ df_new)%list -> name x = name r' ->
  Update.lat_cmp (reclat r') (reclat x) <> Gt.
Proof. unfold Update.merge. apply MergeFacts.deduplicate_least. Qed.

Lemma survivor_least_latitude_witness :
  Update.lat_cmp (Some (-20 # 1)) (Some (-1958 # 100)) <> Gt.
Proof.
  apply (survivor_least_latitude
           [bare (Some "Hoba") (Some 1) (Some (-1958 # 100))]
           [bare (Some "Hoba") (Some 2) (Some (-20 # 1))]
           (bare (Some "Hoba") (Some 2) (Some (-20 # 1)))
           (bare (Some "Hoba") (Some 1) (Some (-1958 # 100)))).
  - left. reflexivity.
  - left. reflexivity.
  - reflexivity.
Defined.

(** X20. Deduplicating is idempotent: a frame that went through the sort
    and the drop of duplicates is left as it is by a second pass, and so
    is a merged dataset merged again with nothing. *)
Theorem deduplicate_idempotent (df df_base df_new : DataFrame) :
  Update.deduplicate (Update.deduplicate df) = Update.deduplicate df /\
  Update.merge (Update.merge df_base df_new) [] = Update.merge df_base df_new.
Proof.
  split; [apply MergeFacts.deduplicate_twice|].
  unfold Update.merge. rewrite app_nil_r. apply MergeFacts.deduplicate_twice.
Qed.

(** X21. Which snapshot comes first does not change who survives a merge
    up to ties: both orders give the same names in the same order, and
    for each name survivors whose latitudes compare equal (both missing,
    or equal numbers). *)
Theorem merge_order_independent (df_base df_new : DataFrame) :
  Forall2 same_survivor
    (Update.merge df_base df_new) (Update.merge df_new df_base).
Proof.
  unfold Update.merge.
  assert (HP : Permutation (df_base ++ df_new) (df_new ++ df_base))
    by apply Permutation_app_comm.
  apply (MergeFacts.survivors_pairwise _ _ HP); auto.
  now apply MergeFacts.deduplicate_names_perm.
Qed.

(** ** clean_and_finalize *)

Module FinalizeFacts.

Import Finalize.

Lemma clean_fall_values (v : option string) :
  clean_fall v = "Fell" \/ clean_fall v = "Found".
Proof. unfold clean_fall. destruct (existsb _ _); auto. Qed.

Lemma clean_fall_again (v : option string) :
  clean_fall (Some (clean_fall v)) = clean_fall v.
Proof. destruct (clean_fall_values v) as [-> | ->]; reflexivity. Qed.

Lemma filter_all {A : Type} (f : A -> bool) (l : list A) :
  Forall (fun x => f x = true) l -> filter f l = l.
Proof.
  induction 1 as [|x l Hx Hl IH]; simpl; auto. now rewrite Hx, IH.
Qed.

Lemma map_all {A : Type} (f : A -> A) (l : list A) :
  Forall (fun x => f x = x) l -> map f l = l.
Proof.
  induction 1 as [|x l Hx Hl IH]; simpl; auto. now rewrite Hx, IH.
Qed.

Section Pipeline.

Variable log10 : Q -> Q.

(** The frame before the final sort and drop of duplicates. *)
Lemma before_deduplicate (df : DataFrame) (r' : row) :
  In r' (filter year_valid
           (map fill_year_int
              (map (set_mass_log log10)
                 (filter mass_positive
                    (map fill_mass
                       (map fix_fall
                          (filter (fun r => notna (name r)) df))))))) ->
  finalized log10 r' /\
  exists r, In r df /\ name r' = name r /\ id r' = id r /\
            recclass r' = recclass r /\ year r' = year r /\
            reclat r' = reclat r /\ reclong r' = reclong r /\
            category_broad r' = category_broad r.
Proof.
  intros H. apply filter_In in H. destruct H as [H Hy].
  apply in_map_iff in H. destruct H as [r3 [<- H]].
  apply in_map_iff in H. destruct H as [r2 [<- H]].
  apply filter_In in H. destruct H as [H Hm].
  apply in_map_iff in H. destruct H as [r1 [<- H]].
  apply in_map_iff in H. destruct H as [r0 [<- H]].
  apply filter_In in H. destruct H as [H Hn].
  split.
  - unfold finalized. simpl. split; [|split; [|split]].
    + destruct (name r0); [discriminate|discriminate Hn].
    + destruct (clean_fall_values (fall r0)) as [-> | ->]; auto.
    + eexists. split; [reflexivity|]. split; [|reflexivity].
      unfold mass_positive in Hm. simpl in Hm.
      now apply UpdateProps.Qlt_bool_iff.
    + unfold year_valid in Hy. simpl in Hy.
      eexists. split; [reflexivity|].
      apply andb_true_iff in Hy. destruct Hy as [H1 H2].
      apply Z.leb_le in H1, H2. auto.
  - exists r0. simpl. repeat split; auto.
Qed.

Lemma finalized_fixed (r : row) :
  finalized log10 r ->
  notna (name r) = true /\ fix_fall r = r /\ fill_mass r = r /\
  mass_positive r = true /\ set_mass_log log10 r = r /\
  fill_year_int r = r /\ year_valid r = true.
Proof.
  intros (Hn & Hf & (q & Hq & Hpos & Hlog) & (y & Hy & Hlo & Hhi)).
  destruct r as [n i rc m f yr la lo yi ml cb]. simpl in *. subst.
  unfold fix_fall, fill_mass, mass_positive, set_mass_log, fill_year_int,
    year_valid. simpl.
  repeat split.
  - destruct n; [reflexivity|congruence].
  - destruct Hf as [-> | ->]; reflexivity.
  - now apply UpdateProps.Qlt_bool_iff.
  - apply andb_true_iff. split; now apply Z.leb_le.
Qed.

Lemma output_finalized (df : DataFrame) :
  Forall (finalized log10) (clean_and_finalize log10 df).
Proof.
  apply Forall_forall. intros r Hr. unfold clean_and_finalize in Hr.
  apply MergeProps.deduplicate_In in Hr.
  now apply before_deduplicate in Hr.
Qed.

End Pipeline.

End FinalizeFacts.

(** X22. [clean_fall] settles on its own answers and does not look at
    case or surrounding whitespace: cleaning an already cleaned value
    returns it, lowercasing or stripping the value first changes
    nothing, and a missing value counts as "Found". *)
Theorem clean_fall_normalizes (v : option string) (s : string) :
  Finalize.clean_fall (Some (Finalize.clean_fall v)) = Finalize.clean_fall v /\
  Finalize.clean_fall (Some (lower s)) = Finalize.clean_fall (Some s) /\
  Finalize.clean_fall (Some (strip s)) = Finalize.clean_fall (Some s) /\
  Finalize.clean_fall None = "Found".
Proof.
  split; [apply FinalizeFacts.clean_fall_again|].
  unfold Finalize.clean_fall. simpl str. repeat split.
  - now rewrite StringFacts.lower_idempotent.
  - now rewrite <- StringFacts.strip_lower, StringFacts.strip_idempotent_aux.
Qed.

(** X23. Every row that [clean_and_finalize] writes has a name, the fall
    status "Fell" or "Found", a positive mass with its logarithm, and a
    year between 860 and 2026; names are pairwise distinct; and each row
    is a row of the input with its name, id, class, year, coordinates
    and category unchanged. *)
Theorem clean_and_finalize_postcondition (log10 : Q -> Q) (df : DataFrame) :
  let out := Finalize.clean_and_finalize log10 df in
  Forall (finalized log10) out /\
  NoDup (map name out) /\
  Forall (fun r' =>
            exists r, In r df /\ name r' = name r /\ id r' = id r /\
                      recclass r' = recclass r /\ year r' = year r /\
                      reclat r' = reclat r /\ reclong r' = reclong r /\
                      category_broad r' = category_broad r) out.
Proof.
  intros out. subst out. split; [apply FinalizeFacts.output_finalized|].
  split; [apply MergeProps.deduplicate_names|].
  apply Forall_forall. intros r Hr. unfold Finalize.clean_and_finalize in Hr.
  apply MergeProps.deduplicate_In in Hr.
  now apply FinalizeFacts.before_deduplicate in Hr.
Qed.

(** X24. [clean_and_finalize] is idempotent: run on the frame it
    produced, it produces that frame again. *)
Theorem clean_and_finalize_idempotent (log10 : Q -> Q) (df : DataFrame) :
  Finalize.clean_and_finalize log10 (Finalize.clean_and_finalize log10 df)
  = Finalize.clean_and_finalize log10 df.
Proof.
  pose proof (FinalizeFacts.output_finalized log10 df) as Hfin.
  assert (Hfix : Forall (fun r =>
             notna (name r) = true /\ Finalize.fix_fall r = r /\
             Finalize.fill_mass r = r /\ Finalize.mass_positive r = true /\
             Finalize.set_mass_log log10 r = r /\
             Finalize.fill_year_int r = r /\ Finalize.year_valid r = true)
            (Finalize.clean_and_finalize log10 df)).
  { eapply Forall_impl; [|exact Hfin].
    intros r. apply FinalizeFacts.finalized_fixed. }
  unfold Finalize.clean_and_finalize at 1.
  set (out := Finalize.clean_and_finalize log10 df) in *.
  rewrite (FinalizeFacts.filter_all (fun r => notna (name r)) out)
    by (eapply Forall_impl; [|exact Hfix]; simpl; tauto).
  rewrite (FinalizeFacts.map_all Finalize.fix_fall out)
    by (eapply Forall_impl; [|exact Hfix]; simpl; tauto).
  rewrite (FinalizeFacts.map_all Finalize.fill_mass out)
    by (eapply Forall_impl; [|exact Hfix]; simpl; tauto).
  rewrite (FinalizeFacts.filter_all Finalize.mass_positive out)
    by (eapply Forall_impl; [|exact Hfix]; simpl; tauto).
  rewrite (FinalizeFacts.map_all (Finalize.set_mass_log log10) out)
    by (eapply Forall_impl; [|exact Hfix]; simpl; tauto).
  rewrite (FinalizeFacts.map_all Finalize.fill_year_int out)
    by (eapply Forall_impl; [|exact Hfix]; simpl; tauto).
  rewrite (FinalizeFacts.filter_all Finalize.year_valid out)
    by (eapply Forall_impl; [|exact Hfix]; simpl; tauto).
  subst out. unfold Finalize.clean_and_finalize.
  apply MergeFacts.deduplicate_twice.
Qed.

(** ** More on whole sessions *)

Module SessionFacts.

Import Crawl.

Lemma file_is_frame `{Pf : Platform} (fetch : nat -> response) (df : DataFrame) :
  missing_count df <> 0%nat ->
  file (fill_missing_ids fetch (Some df))
  = Some (frame (fill_missing_ids fetch (Some df))) /\
  file (finish_filling_ids fetch (Some df))
  = Some (frame (finish_filling_ids fetch (Some df))) /\
  file (fill_remaining_ids fetch (Some df))
  = Some (frame (fill_remaining_ids fetch (Some df))).
Proof.
  intros H. apply Nat.eqb_neq in H.
  unfold fill_missing_ids, finish_filling_ids, fill_remaining_ids.
  rewrite H. repeat split.
Qed.

End SessionFacts.

(** X25. Through a whole session, intermediate saves included and
    whatever the remote pages answer, a record loaded with a resolved id
    ends with that id in each of the four scripts (in
    [fix_names_and_fetch_ids], after its name repair). *)
Theorem sessions_keep_resolved_ids `{Pf : Platform}
  (fetch : nat -> Crawl.response) (df : DataFrame) (i : nat) (r : row) (v : Z) :
  nth_error df i = Some r -> id r = Some v -> v <> 0 ->
  (exists r', nth_error (Crawl.frame (Crawl.fill_missing_ids fetch (Some df))) i
              = Some r' /\ id r' = Some v) /\
  (exists r', nth_error (Crawl.frame (Crawl.finish_filling_ids fetch (Some df))) i
              = Some r' /\ id r' = Some v) /\
  (exists r', nth_error (Crawl.frame (Crawl.fill_remaining_ids fetch (Some df))) i
              = Some r' /\ id r' = Some v) /\
  (exists r', nth_error
                (Crawl.frame (Crawl.fix_names_and_fetch_ids fetch (Some df))) i
              = Some r' /\ id r' = Some v).
Proof.
  intros Hi Hid Hv.
  destruct (SessionProps.sessions_backfilled fetch df) as (H1 & H2 & H3 & H4).
  split; [|split; [|split]];
    try (eapply SessionProps.backfilled_resolved; eauto; fail).
  assert (Hc : exists rc, nth_error (clean_names df) i = Some rc /\ id rc = Some v).
  { unfold clean_names. destruct (Nat.ltb 0 _); [|eauto].
    rewrite nth_error_map, Hi. simpl. eauto. }
  destruct Hc as (rc & Hrc & Hidc).
  eapply SessionProps.backfilled_resolved; eauto.
Qed.

Lemma sessions_keep_resolved_ids_witness :
  exists r',
    nth_error
      (Crawl.frame (Crawl.finish_filling_ids old_at_first
                      (Some [bare (Some "NWA 869") (Some 7) None;
                             bare (Some "Zag") (Some 0) None]))) 0
    = Some r' /\ id r' = Some 7.
Proof.
  refine (proj1 (proj2
            (sessions_keep_resolved_ids old_at_first
               [bare (Some "NWA 869") (Some 7) None;
                bare (Some "Zag") (Some 0) None]
               0 (bare (Some "NWA 869") (Some 7) None) 7
               eq_refl eq_refl _))).
  discriminate.
Defined.

(** X26. A whole session changes the [id] column only: the frame a
    script ends with has, row by row, every other field of the frame it
    loaded (of the repaired frame in [fix_names_and_fetch_ids]); and
    when some id was missing, the file last written is that frame. *)
Theorem sessions_write_only_id `{Pf : Platform} (fetch : nat -> Crawl.response) (df : DataFrame) :
  Forall2 same_but_id df (Crawl.frame (Crawl.fill_missing_ids fetch (Some df))) /\
  Forall2 same_but_id df (Crawl.frame (Crawl.finish_filling_ids fetch (Some df))) /\
  Forall2 same_but_id df (Crawl.frame (Crawl.fill_remaining_ids fetch (Some df))) /\
  Forall2 same_but_id (clean_names df)
    (Crawl.frame (Crawl.fix_names_and_fetch_ids fetch (Some df))) /\
  (missing_count df <> 0%nat ->
   Crawl.file (Crawl.fill_missing_ids fetch (Some df))
   = Some (Crawl.frame (Crawl.fill_missing_ids fetch (Some df))) /\
   Crawl.file (Crawl.finish_filling_ids fetch (Some df))
   = Some (Crawl.frame (Crawl.finish_filling_ids fetch (Some df))) /\
   Crawl.file (Crawl.fill_remaining_ids fetch (Some df))
   = Some (Crawl.frame (Crawl.fill_remaining_ids fetch (Some df)))).
Proof.
  destruct (SessionProps.sessions_backfilled fetch df) as (H1 & H2 & H3 & H4).
  repeat split; try (now apply SessionProps.backfilled_frame);
    now apply SessionFacts.file_is_frame.
Qed.

Lemma sessions_write_only_id_witness :
  Crawl.file (Crawl.fill_missing_ids empty_then_nwa (Some nwa_frame))
  = Some (Crawl.frame (Crawl.fill_missing_ids empty_then_nwa (Some nwa_frame))).
Proof.
  refine (proj1 (proj2 (proj2 (proj2 (proj2
            (sessions_write_only_id empty_then_nwa nwa_frame)))) _)).
  discriminate.
Defined.

(** X27. The index only grows over a session: a name indexed by the
    pages read so far is still indexed after any further matches (its id
    may have been replaced by a later match of the same name). *)
Theorem index_only_grows (m : dict) (ms : list (Z * string)) (k : string) (v : Z) :
  get m k = Some v ->
  exists w, get (index_matches m ms) k = Some w /\
            (last_code k ms = None -> w = v).
Proof.
  intros H. rewrite index_matches_get.
  destruct (last_code k ms) as [c|]; eauto.
  exists c. split; auto. discriminate.
Qed.

Lemma index_only_grows_witness :
  exists w, get (index_matches [("Zag", 7)] nwa_page) "Zag" = Some w /\
            (last_code "Zag" nwa_page = None -> w = 7).
Proof. apply (index_only_grows [("Zag", 7)] nwa_page "Zag" 7). reflexivity. Defined.
